(** * Collaborative canvas: the room synchronisation engine

    A shallow embedding of the server route [app/api/ws/route-redis.ts]
    (the [GET] join handler with its [cancel] callback, and the [POST]
    handler for drawing events), of the data types of
    [lib/drawing-types.ts], and of the client reducer [handleMessage] of
    [hooks/use-collaborative-canvas.ts].

    Conventions of the embedding:
    - a JavaScript [Map] keyed by strings is a [gmap string _]; arrays are
      lists, [push] appends at the tail and [pop] removes the tail;
    - JavaScript numbers are [JsNum]: NaN, the two infinities, or a finite
      value carried as a rational in canonical form ([Math.min], [Math.max]
      and comparisons are exact on those);
    - the Redis server is a key-value store whose entries carry the
      instant at which they expire, together with the log of what was
      published; the handlers are written in a small state monad over it;
    - [Date.now()], [generateId()] and [getRandomUserColor()] are inputs of
      each handler (record [Env]); one request sees one instant;
    - a JSON text is modelled by the value that [JSON.parse] reads back
      from it: what is stored, published, enqueued or posted went through
      [JSON.stringify], which writes NaN and the infinities as [null]
      (functions [JSON_value], [JSON_room], [JSON_message] below); this is
      the only loss on the values of the embedding;
    - Redis calls are taken to succeed (their [catch] branches only log);
    - a posted message is typed: its payload is missing, or it has the
      fields that the case of its [type] destructures, each of the shape
      that [lib/drawing-types.ts] gives it, except for the numbers, which
      may be any primitive value. The route itself takes any JSON; a
      payload that is present without one of its fields (a [stroke_end]
      without [stroke], say) is outside the embedding. *)

From Stdlib Require Import QArith Qcanon.
From stdpp Require Import base numbers gmap strings list fin_maps pretty.

Set Default Proof Using "Type".

(* ===================================================================== *)
(** ** JavaScript values met by the handlers *)
(* ===================================================================== *)

Module Js.

Inductive JsNum : Type :=
| NaN
| PosInfinity
| NegInfinity
| Fin (q : Qc).

(** The primitive values a JSON payload field can hold ([JsUndefined]
    stands for an absent field). *)
Inductive JsValue : Type :=
| JsUndefined
| JsNull
| JsBool (b : bool)
| JsNumber (n : JsNum)
| JsString (s : string).

Definition num_of_Z (z : Z) : JsNum := Fin (Qc_of_Z z).

(** [a <= b] on numbers; false as soon as one side is NaN. *)
Definition num_leb (a b : JsNum) : bool :=
  match a, b with
  | NaN, _ | _, NaN => false
  | NegInfinity, _ => true
  | _, PosInfinity => true
  | PosInfinity, _ => false
  | _, NegInfinity => false
  | Fin p, Fin q => bool_decide (p ≤ q)%Qc
  end.

Definition is_NaN (a : JsNum) : bool :=
  match a with NaN => true | _ => false end.

Definition isFinite (a : JsNum) : bool :=
  match a with Fin _ => true | _ => false end.

(** [Math.min(a, b)] and [Math.max(a, b)] on numbers. *)
Definition Math_min (a b : JsNum) : JsNum :=
  if is_NaN a || is_NaN b then NaN
  else if num_leb a b then a else b.

Definition Math_max (a b : JsNum) : JsNum :=
  if is_NaN a || is_NaN b then NaN
  else if num_leb a b then b else a.

(** Truthiness, as used by [||] and [!]. *)
Definition ToBoolean (v : JsValue) : bool :=
  match v with
  | JsUndefined | JsNull => false
  | JsBool b => b
  | JsNumber NaN => false
  | JsNumber (Fin q) => negb (bool_decide (q = Qc_of_Z 0))
  | JsNumber _ => true
  | JsString s => negb (String.eqb s EmptyString)
  end.

(** [a || b] *)
Definition or (a b : JsValue) : JsValue :=
  if ToBoolean a then a else b.

(** [JSON.parse(JSON.stringify(v))] on the value of a field:
    [JSON.stringify] writes NaN and the two infinities as [null]; an
    undefined field is left out and reads as undefined again. *)
Definition JSON_value (v : JsValue) : JsValue :=
  match v with
  | JsNumber (Fin q) => JsNumber (Fin q)
  | JsNumber _ => JsNull
  | v => v
  end.

Section ToNumber.
(** The numeric value of a string (the StringToNumber of the
    language) is a parameter of the embedding. *)
Variable StringToNumber : string -> JsNum.

Definition ToNumber (v : JsValue) : JsNum :=
  match v with
  | JsUndefined => NaN
  | JsNull => num_of_Z 0
  | JsBool true => num_of_Z 1
  | JsBool false => num_of_Z 0
  | JsNumber n => n
  | JsString s => StringToNumber s
  end.
End ToNumber.

End Js.
Import Js.

(* ===================================================================== *)
(** ** lib/drawing-types.ts *)
(* ===================================================================== *)

(** The number fields [x], [y], [pressure] and [width] of the interfaces
    are carried as [JsValue]: a number before the value is written as JSON,
    possibly [null] once it was read back. *)
Record Point : Type := mkPoint {
  x : JsValue;
  y : JsValue;
  pressure : option JsValue
}.

Inductive ToolType : Type :=
| brush | eraser | line | rectangle | circle | fill.

Record Stroke : Type := mkStroke {
  stroke_id : string;
  stroke_userId : string;
  points : list Point;
  color : string;
  width : JsValue;
  tool : ToolType;
  stroke_timestamp : Z;
  startPoint : option Point;
  endPoint : option Point;
  filled : option bool
}.

Inductive OperationType : Type :=
| stroke_add | stroke_remove | op_clear.

Record Operation : Type := mkOperation {
  op_id : string;
  op_type : OperationType;
  op_stroke : option Stroke;
  affectedStrokeIds : option (list string);
  op_userId : string;
  op_userName : string;
  op_timestamp : Z
}.

Record UserCursor : Type := mkUserCursor {
  cursor_userId : string;
  cursor_x : JsValue;
  cursor_y : JsValue;
  cursor_color : string;
  cursor_name : string;
  isDrawing : bool;
  lastUpdate : option Z     (* absent from the cursor a client rebuilds *)
}.

Record User : Type := mkUser {
  user_id : string;
  user_name : string;
  user_color : string;
  joinedAt : Z;
  isOnline : bool
}.

Inductive NotificationLevel : Type :=
| info | success | warning | error.

Record NotificationPayload : Type := mkNotificationPayload {
  notif_message : string;
  notif_type : NotificationLevel;
  fromUser : option string
}.

Inductive WSMessageType : Type :=
| t_join | t_leave | t_stroke_start | t_stroke_update | t_stroke_end
| t_cursor_move | t_undo | t_redo | t_clear | t_sync_state
| t_user_joined | t_user_left | t_error | t_save_session
| t_load_session | t_notification.

(** The envelope [WSMessage]; its [type] is the tag of the payload. *)
Record WSMessage (P : Type) : Type := mkWSMessage {
  roomId : string;
  userId : option string;
  payload : P;
  timestamp : Z
}.
Arguments mkWSMessage {P} _ _ _ _.
Arguments roomId {P} _.
Arguments userId {P} _.
Arguments payload {P} _.
Arguments timestamp {P} _.

(** The message types whose case of the handler destructures the
    payload. *)
Inductive DestructuredType : Type :=
| d_stroke_start | d_stroke_update | d_stroke_end | d_cursor_move.

(** What a client posts: the message type with the fields the handler
    destructures from [payload] for that type; [no_payload] is a message of
    such a type whose payload is missing ([undefined] or [null]). *)
Inductive ClientPayload : Type :=
| stroke_start (strokeId : string) (point : Point) (color : string)
               (width : JsValue) (tool : ToolType)
| stroke_update (strokeId : string) (points : option (list Point))
                (endPoint : option Point)
| stroke_end (strokeId : string) (stroke : Stroke)
| cursor_move (x y : JsValue) (isDrawing : bool)
| undo
| redo
| clear
| notification (n : NotificationPayload)
| no_payload (type : DestructuredType)
| unhandled (type : WSMessageType).

(** What the server pushes to the sessions of a room. *)
Inductive ServerPayload : Type :=
| sync_state (strokes : list Stroke) (users : list User)
             (cursors : list UserCursor) (yourUser : User)
             (operations : option (list Operation))
             (canUndo canRedo : option bool)
| stroke_started (s : Stroke)
| stroke_updated (strokeId : string) (points : list Point)
                 (endPoint : option Point)
| stroke_ended (strokeId : string) (stroke : Stroke)
               (operation : option Operation) (canUndo canRedo : option bool)
| cursor_moved (userId : string) (x y : JsValue) (isDrawing : bool)
               (color name : string)
| user_joined (user : User)
| user_left (userId : string)
| undone (operation : Operation) (strokes : option (list Stroke))
         (canUndo canRedo : bool)
| redone (operation : Operation) (strokes : option (list Stroke))
         (canUndo canRedo : bool)
| cleared (canUndo canRedo : option bool)
| notified (n : NotificationPayload).

Definition client_type (p : ClientPayload) : WSMessageType :=
  match p with
  | stroke_start _ _ _ _ _ => t_stroke_start
  | stroke_update _ _ _ => t_stroke_update
  | stroke_end _ _ => t_stroke_end
  | cursor_move _ _ _ => t_cursor_move
  | undo => t_undo
  | redo => t_redo
  | clear => t_clear
  | notification _ => t_notification
  | no_payload d_stroke_start => t_stroke_start
  | no_payload d_stroke_update => t_stroke_update
  | no_payload d_stroke_end => t_stroke_end
  | no_payload d_cursor_move => t_cursor_move
  | unhandled t => t
  end.

Definition server_type (p : ServerPayload) : WSMessageType :=
  match p with
  | sync_state _ _ _ _ _ _ _ => t_sync_state
  | stroke_started _ => t_stroke_start
  | stroke_updated _ _ _ => t_stroke_update
  | stroke_ended _ _ _ _ _ => t_stroke_end
  | cursor_moved _ _ _ _ _ _ => t_cursor_move
  | user_joined _ => t_user_joined
  | user_left _ => t_user_left
  | undone _ _ _ _ => t_undo
  | redone _ _ _ _ => t_redo
  | cleared _ _ => t_clear
  | notified _ => t_notification
  end.

(** [interface RoomState] of the route. *)
Record RoomState : Type := mkRoomState {
  strokes : list Stroke;
  operations : list Operation;
  redoStack : list Operation;
  users : gmap string User;
  cursors : gmap string UserCursor
}.

(* ===================================================================== *)
(** ** Values read back from their JSON text *)
(* ===================================================================== *)

(** [JSON.parse(JSON.stringify(v))] for the values of each type: the
    number fields go through [JSON_value], everything else is read back as
    it was written. *)
Definition JSON_point (p : Point) : Point :=
  mkPoint (JSON_value (x p)) (JSON_value (y p)) (JSON_value <$> pressure p).

Definition JSON_stroke (s : Stroke) : Stroke :=
  mkStroke (stroke_id s) (stroke_userId s) (JSON_point <$> points s) (color s)
    (JSON_value (width s)) (tool s) (stroke_timestamp s)
    (JSON_point <$> startPoint s) (JSON_point <$> endPoint s) (filled s).

Definition JSON_operation (o : Operation) : Operation :=
  mkOperation (op_id o) (op_type o) (JSON_stroke <$> op_stroke o)
    (affectedStrokeIds o) (op_userId o) (op_userName o) (op_timestamp o).

Definition JSON_cursor (c : UserCursor) : UserCursor :=
  mkUserCursor (cursor_userId c) (JSON_value (cursor_x c))
    (JSON_value (cursor_y c)) (cursor_color c) (cursor_name c) (isDrawing c)
    (lastUpdate c).

Definition JSON_room (room : RoomState) : RoomState :=
  mkRoomState (JSON_stroke <$> strokes room)
    (JSON_operation <$> operations room)
    (JSON_operation <$> redoStack room)
    (users room) (JSON_cursor <$> cursors room).

Definition JSON_client (p : ClientPayload) : ClientPayload :=
  match p with
  | stroke_start strokeId point color width tool =>
      stroke_start strokeId (JSON_point point) color (JSON_value width) tool
  | stroke_update strokeId points endPoint =>
      stroke_update strokeId (fmap (M:=list) JSON_point <$> points)
        (JSON_point <$> endPoint)
  | stroke_end strokeId stroke => stroke_end strokeId (JSON_stroke stroke)
  | cursor_move x y isDrawing =>
      cursor_move (JSON_value x) (JSON_value y) isDrawing
  | p => p
  end.

Definition JSON_server (p : ServerPayload) : ServerPayload :=
  match p with
  | sync_state strokes users cursors yourUser operations canUndo canRedo =>
      sync_state (JSON_stroke <$> strokes) users (JSON_cursor <$> cursors)
        yourUser (fmap (M:=list) JSON_operation <$> operations) canUndo canRedo
  | stroke_started s => stroke_started (JSON_stroke s)
  | stroke_updated strokeId points endPoint =>
      stroke_updated strokeId (JSON_point <$> points) (JSON_point <$> endPoint)
  | stroke_ended strokeId stroke operation canUndo canRedo =>
      stroke_ended strokeId (JSON_stroke stroke) (JSON_operation <$> operation)
        canUndo canRedo
  | cursor_moved userId x y isDrawing color name =>
      cursor_moved userId (JSON_value x) (JSON_value y) isDrawing color name
  | undone operation strokes canUndo canRedo =>
      undone (JSON_operation operation) (fmap (M:=list) JSON_stroke <$> strokes)
        canUndo canRedo
  | redone operation strokes canUndo canRedo =>
      redone (JSON_operation operation) (fmap (M:=list) JSON_stroke <$> strokes)
        canUndo canRedo
  | p => p
  end.

Definition JSON_message {P} (JSON_payload : P -> P) (m : WSMessage P)
    : WSMessage P :=
  mkWSMessage (roomId m) (userId m) (JSON_payload (payload m)) (timestamp m).

(* ===================================================================== *)
(** ** The Redis server: keys with an expiry, and what was published *)
(* ===================================================================== *)

(** The value of a key is a JSON text: [entry_value] is a value with that
    text. *)
Record Entry : Type := mkEntry {
  entry_value : RoomState;
  expires_at : Z            (* in milliseconds, on the clock of [Date.now()] *)
}.

Record Redis : Type := mkRedis {
  keys : gmap string Entry;
  published : list (string * WSMessage ServerPayload)
}.

(** The sources of non-determinism of one request. *)
Record Env : Type := mkEnv {
  now : Z;                       (* Date.now() *)
  generateId : string;           (* generateId() *)
  getRandomUserColor : string    (* getRandomUserColor() *)
}.

(** A computation that talks to Redis. *)
Definition Eff (A : Type) : Type := Redis -> A * Redis.

Global Instance Eff_ret : MRet Eff := fun A (a : A) r => (a, r).
Global Instance Eff_bind : MBind Eff :=
  fun A B (k : A -> Eff B) (m : Eff A) r => let '(a, r') := m r in k a r'.

Definition TTL_SECONDS : Z := 86400.

(** [redis.get(key)]: an expired key is gone. *)
Definition redis_get (env : Env) (key : string) : Eff (option RoomState) :=
  fun r =>
    (match keys r !! key with
     | Some e => if (now env <? expires_at e)%Z then Some (entry_value e) else None
     | None => None
     end, r).

(** [redis.setEx(key, seconds, value)] *)
Definition redis_setEx (env : Env) (key : string) (seconds : Z)
    (value : RoomState) : Eff unit :=
  fun r =>
    (tt, mkRedis (<[key := mkEntry value (now env + seconds * 1000)]> (keys r))
                 (published r)).

(** [redis.publish(channel, message)] *)
Definition redis_publish (channel : string) (message : WSMessage ServerPayload)
    : Eff unit :=
  fun r => (tt, mkRedis (keys r) (published r ++ [(channel, message)])).

(* ===================================================================== *)
(** ** app/api/ws/route-redis.ts *)
(* ===================================================================== *)

Definition room_key (roomId : string) : string := "room:" +:+ roomId.
Definition room_channel (roomId : string) : string :=
  "room:" +:+ roomId +:+ ":messages".

Definition empty_room : RoomState :=
  mkRoomState [] [] [] ∅ ∅.

(** Get or create room from Redis; [JSON.parse(data)] reads the room
    back from the text under the key. *)
Definition getRoom (env : Env) (roomId : string) : Eff RoomState :=
  data ← redis_get env (room_key roomId) ;
  match data with
  | Some parsed => mret (JSON_room parsed)
  | None => mret empty_room
  end.

(** Save room to Redis (expires after 24 hours); the key receives
    [JSON.stringify(data)]. *)
Definition saveRoom (env : Env) (roomId : string) (room : RoomState) : Eff unit :=
  redis_setEx env (room_key roomId) TTL_SECONDS (JSON_room room).

(** Broadcast message to all users in room via Redis Pub/Sub; the channel
    receives [JSON.stringify(message)], which a session parses. *)
Definition broadcastToRoom (roomId : string) (message : WSMessage ServerPayload)
    : Eff unit :=
  redis_publish (room_channel roomId) (JSON_message JSON_server message).

Inductive Response : Type :=
| TextResponse (body : string) (status : Z)
| JsonResponse (success : bool) (error : option string) (status : Z)
| StreamResponse (enqueued : list (WSMessage ServerPayload)).

Definition MAX_USERS : nat := 100.

(** [searchParams.get(name) || fallback] *)
Definition param_or (p : option string) (fallback : string) : string :=
  match p with
  | Some s => if String.eqb s EmptyString then fallback else s
  | None => fallback
  end.

Record Query : Type := mkQuery {
  q_roomId : option string;
  q_userName : option string;
  q_userId : option string
}.

(** [Array.from(m.values())]; the list comes in the order of the keys,
    where the source has the order of insertion. *)
Definition values {V} (m : gmap string V) : list V := (map_to_list m).*2.

(** SSE endpoint: the join. The stream's [start] is run with the handler:
    it enqueues the sync message and announces the user. *)
Definition GET (env : Env) (q : Query) : Eff Response :=
  let roomId := param_or (q_roomId q) "default" in
  let userName := param_or (q_userName q) "Anonymous" in
  let userId := param_or (q_userId q) (generateId env) in
  room ← getRoom env roomId ;
  if bool_decide (MAX_USERS ≤ size (users room)) then
    mret (TextResponse "Room is full" 503)
  else
    let user := mkUser userId userName (getRandomUserColor env) (now env) true in
    let room := mkRoomState (strokes room) (operations room) (redoStack room)
                            (<[userId := user]> (users room)) (cursors room) in
    saveRoom env roomId room ;;
    let syncMessage :=
      mkWSMessage roomId (Some userId)
        (sync_state (strokes room) (values (users room)) (values (cursors room))
           user (Some (operations room))
           (Some (bool_decide (0 < length (operations room))))
           (Some (bool_decide (0 < length (redoStack room)))))
        (now env) in
    broadcastToRoom roomId
      (mkWSMessage roomId (Some userId) (user_joined user) (now env)) ;;
    mret (StreamResponse [JSON_message JSON_server syncMessage]).

(** The stream's [cancel]: clean up when the client disconnects. *)
Definition cancel (env : Env) (roomId userId : string) : Eff unit :=
  room ← getRoom env roomId ;
  let room := mkRoomState (strokes room) (operations room) (redoStack room)
                          (delete userId (users room))
                          (delete userId (cursors room)) in
  saveRoom env roomId room ;;
  broadcastToRoom roomId
    (mkWSMessage roomId (Some userId) (user_left userId) (now env)).

(** [arr.pop()] on a non-empty array: the array without its tail, and the
    tail. *)
Definition pop {A} (l : list A) : option (list A * A) :=
  match last l with
  | Some a => Some (removelast l, a)
  | None => None
  end.

Definition ok : Response := JsonResponse true None 200.

Section POST.
Variable StringToNumber : string -> JsNum.

(** [Math.max(1, Math.min(100, width || 4))] *)
Definition validWidth (width : JsValue) : JsNum :=
  Math_max (num_of_Z 1)
    (Math_min (num_of_Z 100)
       (ToNumber StringToNumber (Js.or width (JsNumber (num_of_Z 4))))).

(** The [switch (type)] of [POST], reached once the sender [user] was
    found in [room]. *)
Definition switch (env : Env) (roomId userId : string) (user : User)
    (room : RoomState) (payload : ClientPayload) : Eff Response :=
  let send p := broadcastToRoom roomId
                  (mkWSMessage roomId (Some userId) p (now env)) in
  match payload with
  | stroke_start strokeId point color width tool =>
      let newStroke :=
        mkStroke strokeId userId [point] color (JsNumber (validWidth width))
                 tool (now env) (Some point) None None in
      (* Broadcast immediately *)
      send (stroke_started newStroke) ;;
      mret ok
  | stroke_update strokeId points endPoint =>
      (* Validate points *)
      match points with
      | None | Some [] =>
          mret (JsonResponse false (Some "Invalid points") 400)
      | Some points =>
          (* Broadcast with limited points to reduce latency *)
          send (stroke_updated strokeId (take 20 points) endPoint) ;;
          mret ok
      end
  | stroke_end strokeId stroke =>
      (* Save stroke to room *)
      let operation :=
        mkOperation (generateId env) stroke_add (Some stroke) None
                    userId (param_or (Some (user_name user)) "Unknown")
                    (now env) in
      let room :=
        mkRoomState (strokes room ++ [stroke])
                    (operations room ++ [operation])
                    []
                    (users room) (cursors room) in
      saveRoom env roomId room ;;
      (* Broadcast completion *)
      send (stroke_ended strokeId stroke (Some operation)
              (Some true) (Some false)) ;;
      mret ok
  | cursor_move x y isDrawing =>
      (* Validate coordinates *)
      match x, y with
      | JsNumber x, JsNumber y =>
          (* Update cursor *)
          let room :=
            mkRoomState (strokes room) (operations room) (redoStack room)
              (users room)
              (<[userId := mkUserCursor userId (JsNumber x) (JsNumber y)
                            (user_color user) (user_name user) isDrawing
                            (Some (now env))]>
                 (cursors room)) in
          (* the cursor is set on the local room only: no saveRoom *)
          send (cursor_moved userId (JsNumber x) (JsNumber y) isDrawing
                  (user_color user) (user_name user)) ;;
          mret ok
      | _, _ => mret (JsonResponse false (Some "Invalid coordinates") 400)
      end
  | undo =>
      match pop (operations room) with
      | Some (operations', operation) =>
          let room :=
            mkRoomState (strokes room) operations'
                        (redoStack room ++ [operation])
                        (users room) (cursors room) in
          saveRoom env roomId room ;;
          send (undone operation None
                  (bool_decide (0 < length (operations room))) true) ;;
          mret ok
      | None => mret ok
      end
  | redo =>
      match pop (redoStack room) with
      | Some (redoStack', operation) =>
          let room :=
            mkRoomState (strokes room) (operations room ++ [operation])
                        redoStack'
                        (users room) (cursors room) in
          saveRoom env roomId room ;;
          send (redone operation None true
                  (bool_decide (0 < length (redoStack room)))) ;;
          mret ok
      | None => mret ok
      end
  | clear =>
      let room := mkRoomState [] [] [] (users room) (cursors room) in
      saveRoom env roomId room ;;
      send (cleared None None) ;;
      mret ok
  | notification n =>
      send (notified n) ;;
      mret ok
  | no_payload _ =>
      (* [const { ... } = payload] throws; the [catch] of [POST] answers *)
      mret (JsonResponse false (Some "Internal server error") 500)
  | unhandled _ => mret ok
  end.

(** POST endpoint for drawing events *)
Definition POST (env : Env) (message : WSMessage ClientPayload) : Eff Response :=
  let roomId := roomId message in
  match userId message with
  | None => mret (JsonResponse false (Some "Missing required fields") 400)
  | Some userId =>
    if String.eqb roomId EmptyString || String.eqb userId EmptyString then
      mret (JsonResponse false (Some "Missing required fields") 400)
    else
      room ← getRoom env roomId ;
      match users room !! userId with
      | None => mret (JsonResponse false (Some "User not found in room") 401)
      | Some user =>
        switch env roomId userId user room (payload message)
      end
  end.
End POST.

(* ===================================================================== *)
(** ** hooks/use-collaborative-canvas.ts: the reducer of server events *)
(* ===================================================================== *)

Record PerformanceMetrics : Type := mkPerformanceMetrics {
  fps : Z;
  latency : Z;
  strokesCount : nat;
  usersCount : nat
}.

(** [interface CollaborativeCanvasState]; the notifications, which are kept
    by timers outside the reducer, are left out. [canUndo] and [canRedo]
    are [None] when the reducer stored an absent payload field. *)
Record CollaborativeCanvasState : Type := mkCanvasState {
  c_strokes : list Stroke;
  activeStrokes : gmap string Stroke;
  c_cursors : gmap string UserCursor;
  c_users : gmap string User;
  currentUser : option User;
  isConnected : bool;
  connectionError : option string;
  metrics : PerformanceMetrics;
  c_operations : list Operation;
  canUndo : option bool;
  canRedo : option bool
}.

Definition initial_state : CollaborativeCanvasState :=
  mkCanvasState [] ∅ ∅ ∅ None false None (mkPerformanceMetrics 0 0 0 0)
                [] (Some false) (Some false).

Definition MAX_STROKES_IN_STATE : nat := 5000.

(** [arr.slice(-n)] for a positive [n] *)
Definition slice_last {A} (n : nat) (l : list A) : list A :=
  drop (length l - n) l.

(** [new Map(entries)]: a later entry overwrites an earlier one. *)
Definition Map_of {V} (entries : list (string * V)) : gmap string V :=
  foldl (fun m kv => <[kv.1 := kv.2]> m) ∅ entries.

Definition with_metrics (m : PerformanceMetrics) (sc uc : nat) : PerformanceMetrics :=
  mkPerformanceMetrics (fps m) (latency m) sc uc.

(** The function passed to [setState] by [handleMessage]; [me] is
    [userIdRef.current]. *)
Definition handleMessage (me : string) (message : WSMessage ServerPayload)
    (prev : CollaborativeCanvasState) : CollaborativeCanvasState :=
  match payload message with
  | sync_state strokes users cursors yourUser operations canUndo canRedo =>
      (* Memory limit: keep only recent strokes on client *)
      let limitedStrokes :=
        if bool_decide (MAX_STROKES_IN_STATE < length strokes)
        then slice_last MAX_STROKES_IN_STATE strokes
        else strokes in
      mkCanvasState limitedStrokes (activeStrokes prev)
        (Map_of ((fun c => (cursor_userId c, c)) <$> cursors))
        (Map_of ((fun u => (user_id u, u)) <$> users))
        (Some yourUser) (isConnected prev) (connectionError prev)
        (with_metrics (metrics prev) (length limitedStrokes) (length users))
        (default [] operations)
        (Some (default false canUndo)) (Some (default false canRedo))
  | stroke_started stroke =>
      mkCanvasState (c_strokes prev)
        (<[stroke_id stroke := stroke]> (activeStrokes prev))
        (c_cursors prev) (c_users prev) (currentUser prev) (isConnected prev)
        (connectionError prev) (metrics prev) (c_operations prev)
        (canUndo prev) (canRedo prev)
  | stroke_updated strokeId points' endPoint' =>
      match activeStrokes prev !! strokeId with
      | Some stroke =>
          let stroke' :=
            mkStroke (stroke_id stroke) (stroke_userId stroke)
              (points stroke ++ points') (color stroke) (width stroke)
              (tool stroke) (stroke_timestamp stroke) (startPoint stroke)
              (match endPoint' with
               | Some p => Some p
               | None => endPoint stroke
               end)
              (filled stroke) in
          mkCanvasState (c_strokes prev)
            (<[strokeId := stroke']> (activeStrokes prev))
            (c_cursors prev) (c_users prev) (currentUser prev) (isConnected prev)
            (connectionError prev) (metrics prev) (c_operations prev)
            (canUndo prev) (canRedo prev)
      | None => prev
      end
  | stroke_ended strokeId stroke operation canUndo canRedo =>
      mkCanvasState (c_strokes prev ++ [stroke])
        (delete strokeId (activeStrokes prev))
        (c_cursors prev) (c_users prev) (currentUser prev) (isConnected prev)
        (connectionError prev)
        (with_metrics (metrics prev) (length (c_strokes prev) + 1)
           (usersCount (metrics prev)))
        (match operation with
         | Some operation => c_operations prev ++ [operation]
         | None => c_operations prev
         end)
        (Some (default true canUndo)) (Some (default false canRedo))
  | cursor_moved userId x y isDrawing color name =>
      (* Don't update our own cursor from server *)
      if bool_decide (userId ≠ me) then
        mkCanvasState (c_strokes prev) (activeStrokes prev)
          (<[userId := mkUserCursor userId x y color name isDrawing None]>
             (c_cursors prev))
          (c_users prev) (currentUser prev) (isConnected prev)
          (connectionError prev) (metrics prev) (c_operations prev)
          (canUndo prev) (canRedo prev)
      else prev
  | user_joined user =>
      let newUsers := <[user_id user := user]> (c_users prev) in
      mkCanvasState (c_strokes prev) (activeStrokes prev) (c_cursors prev)
        newUsers (currentUser prev) (isConnected prev) (connectionError prev)
        (with_metrics (metrics prev) (strokesCount (metrics prev)) (size newUsers))
        (c_operations prev) (canUndo prev) (canRedo prev)
  | user_left userId =>
      let newUsers := delete userId (c_users prev) in
      mkCanvasState (c_strokes prev) (activeStrokes prev)
        (delete userId (c_cursors prev))
        newUsers (currentUser prev) (isConnected prev) (connectionError prev)
        (with_metrics (metrics prev) (strokesCount (metrics prev)) (size newUsers))
        (c_operations prev) (canUndo prev) (canRedo prev)
  | undone operation strokes canUndo canRedo =>
      let strokes' := default (c_strokes prev) strokes in
      mkCanvasState strokes' (activeStrokes prev) (c_cursors prev) (c_users prev)
        (currentUser prev) (isConnected prev) (connectionError prev)
        (with_metrics (metrics prev) (length strokes') (usersCount (metrics prev)))
        (removelast (c_operations prev))
        (Some canUndo) (Some canRedo)
  | redone operation strokes canUndo canRedo =>
      let strokes' := default (c_strokes prev) strokes in
      mkCanvasState strokes' (activeStrokes prev) (c_cursors prev) (c_users prev)
        (currentUser prev) (isConnected prev) (connectionError prev)
        (with_metrics (metrics prev) (length strokes') (usersCount (metrics prev)))
        (c_operations prev ++ [operation])
        (Some canUndo) (Some canRedo)
  | cleared canUndo canRedo =>
      mkCanvasState [] ∅ (c_cursors prev) (c_users prev)
        (currentUser prev) (isConnected prev) (connectionError prev)
        (with_metrics (metrics prev) 0 (usersCount (metrics prev)))
        (c_operations prev) canUndo canRedo
  | notified _ =>
      (* handled separately, outside the reducer *)
      prev
  end.

(* ===================================================================== *)
(** ** Observations used by the statements *)
(* ===================================================================== *)

(** The room a handler would load for [roomId] at the instant of [env]. *)
Definition room_of (env : Env) (r : Redis) (roomId : string) : RoomState :=
  (getRoom env roomId r).1.

(** What was published between the Redis states [r] and [r']. *)
Definition emitted (r r' : Redis) : list (string * WSMessage ServerPayload) :=
  drop (length (published r)) (published r').

(** The sender of a POST passes the two guards of the handler: the ids are
    present and [user] is the entry of [uid] in the room. *)
Definition member (env : Env) (r : Redis) (rid uid : string) (user : User) : Prop :=
  rid ≠ EmptyString ∧ uid ≠ EmptyString ∧ users (room_of env r rid) !! uid = Some user.

(** A session applies the events of its channel in order. *)
Definition deliver (me : string) (events : list (string * WSMessage ServerPayload))
    (c : CollaborativeCanvasState) : CollaborativeCanvasState :=
  foldl (fun c e => handleMessage me e.2 c) c events.

(** The [canUndo]/[canRedo] pair of an outbound payload that carries both. *)
Definition carried_flags (p : ServerPayload) : option (bool * bool) :=
  match p with
  | sync_state _ _ _ _ _ (Some cu) (Some cr) => Some (cu, cr)
  | stroke_ended _ _ _ (Some cu) (Some cr) => Some (cu, cr)
  | undone _ _ cu cr => Some (cu, cr)
  | redone _ _ cu cr => Some (cu, cr)
  | _ => None
  end.

(** The three entry points of the route. *)
Inductive Request : Type :=
| Join (q : Query)
| Post (message : WSMessage ClientPayload)
| Leave (roomId userId : string).

Definition request_room (req : Request) : string :=
  match req with
  | Join q => param_or (q_roomId q) "default"
  | Post m => roomId m
  | Leave rid _ => rid
  end.

Definition serve (StringToNumber : string -> JsNum) (env : Env) (req : Request)
    : Eff Response :=
  match req with
  | Join q => GET env q
  | Post m => POST StringToNumber env m
  | Leave rid uid => cancel env rid uid ;; mret ok
  end.

(** Every message a request sends out: enqueued on the new session's
    stream, or published to the room. *)
Definition sent (StringToNumber : string -> JsNum) (env : Env) (req : Request)
    (r : Redis) : list (WSMessage ServerPayload) :=
  let '(resp, r') := serve StringToNumber env req r in
  match resp with
  | StreamResponse enqueued => enqueued
  | _ => []
  end ++ (emitted r r').*2.

(** A run of [stroke_end] requests by one member, one per stroke. *)
Fixpoint commit_all (StringToNumber : string -> JsNum) (env : Env)
    (rid uid : string) (ss : list Stroke) (r : Redis) : Redis :=
  match ss with
  | [] => r
  | s :: ss =>
      commit_all StringToNumber env rid uid ss
        (POST StringToNumber env
           (mkWSMessage rid (Some uid) (stroke_end (stroke_id s) s) (now env)) r).2
  end.

(** The width [w] clamped to the interval [1,100], in the words of the
    specification: below 1 it becomes 1, above 100 it becomes 100. *)
Definition clamp_1_100 (w : JsNum) : JsNum :=
  if num_leb w (num_of_Z 1) then num_of_Z 1
  else if num_leb (num_of_Z 100) w then num_of_Z 100
  else w.

(** [1 <= w <= 100] *)
Definition in_1_100 (w : JsNum) : Prop :=
  match w with
  | Fin q => (Qc_of_Z 1 ≤ q ∧ q ≤ Qc_of_Z 100)%Qc
  | _ => False
  end.

(** The day a key lives, in milliseconds. *)
Definition DAY_MS : Z := TTL_SECONDS * 1000.

(* ===================================================================== *)
(** ** A concrete room: the scenario R1 with members A and B *)
(* ===================================================================== *)

Module Scenario.

(** The string conversion of the scenario: none of its strings spells a
    number. *)
Definition no_strings : string -> JsNum := fun _ => NaN.

Definition A : User := mkUser "A" "Alice" "#FF6B6B" 1000 true.
Definition B : User := mkUser "B" "Bob" "#4ECDC4" 1100 true.

Definition pt (a b : Z) : Point :=
  mkPoint (JsNumber (num_of_Z a)) (JsNumber (num_of_Z b)) None.

(** s1: three points, red, width 4 *)
Definition s1 : Stroke :=
  mkStroke "s1" "A" [pt 0 0; pt 5 5; pt 9 4] "#FF0000" (JsNumber (num_of_Z 4)) brush
           1500 (Some (pt 0 0)) None None.
Definition s2 : Stroke :=
  mkStroke "s2" "B" [pt 3 3; pt 4 8] "#0000FF" (JsNumber (num_of_Z 8)) brush
           1600 (Some (pt 3 3)) None None.

Definition op1 : Operation :=
  mkOperation "op-1" stroke_add (Some s1) None "A" "Alice" 2000.
Definition op2 : Operation :=
  mkOperation "op-2" stroke_add (Some s2) None "B" "Bob" 2100.

Definition members : gmap string User := {[ "A" := A; "B" := B ]}.

Definition store (room : RoomState) : Redis :=
  mkRedis {[ room_key "R1" := mkEntry room 86401000 ]} [].

(** R1 with its two members and nothing drawn. *)
Definition fresh : Redis := store (mkRoomState [] [] [] members ∅).

Definition env_at (t : Z) (id : string) : Env := mkEnv t id "#45B7D1".

Definition post (t : Z) (id : string) (uid : string) (p : ClientPayload)
    (r : Redis) : Redis :=
  (POST no_strings (env_at t id) (mkWSMessage "R1" (Some uid) p t) r).2.

Definition R1_at (t : Z) (r : Redis) : RoomState :=
  room_of (env_at t "id") r "R1".

(** A room filled to the limit: users "0" ... "99". *)
Definition crowd : gmap string User :=
  list_to_map
    ((fun n => (pretty n, mkUser (pretty n) "guest" "#96CEB4" 0 true))
       <$> seq 0 100).
Definition full : Redis := store (mkRoomState [s1] [op1] [] crowd ∅).

(** Both strokes committed, nothing undone. *)
Definition drawn : Redis := store (mkRoomState [s1; s2] [op1; op2] [] members ∅).

(** What the handlers leave after s1, s2 and one undo. *)
Definition after_undo : Redis :=
  store (mkRoomState [s1; s2] [op1] [op2] members ∅).


(** A is the last member of a room that holds s1. *)
Definition cursorA : UserCursor :=
  mkUserCursor "A" (JsNumber (num_of_Z 9)) (JsNumber (num_of_Z 4)) "#FF6B6B"
    "Alice" false (Some 1500%Z).
Definition alone : Redis :=
  store (mkRoomState [s1] [op1] [] {[ "A" := A ]} {[ "A" := cursorA ]}).

(** [n] one-point strokes "0", "1", ... by A. *)
Definition dots (n : nat) : list Stroke :=
  (fun i => mkStroke (pretty i) "A" [pt 0 0] "#000000" (JsNumber (num_of_Z 4))
              brush 0
              (Some (pt 0 0)) None None) <$> seq 0 n.

End Scenario.

(* ===================================================================== *)
(** ** More of the route: what a request may do to a stored room *)
(* ===================================================================== *)

(** [reconnectStrategy] of the Redis client: the delay before the retry
    number [retries]. *)
Definition reconnectStrategy (retries : Z) : Z :=
  Z.min (retries * 50) 500.

(** The four ways in which a POST rewrites the room it loaded; each
    constructor is one room handed to [saveRoom] by the switch. *)
Inductive saved_by_post (room : RoomState) : RoomState -> Prop :=
| saved_stroke_end stroke op :
    op_type op = stroke_add ->
    op_stroke op = Some stroke ->
    saved_by_post room
      (mkRoomState (strokes room ++ [stroke]) (operations room ++ [op]) []
                   (users room) (cursors room))
| saved_undo ops op :
    operations room = ops ++ [op] ->
    saved_by_post room
      (mkRoomState (strokes room) ops (redoStack room ++ [op])
                   (users room) (cursors room))
| saved_redo rs op :
    redoStack room = rs ++ [op] ->
    saved_by_post room
      (mkRoomState (strokes room) (operations room ++ [op]) rs
                   (users room) (cursors room))
| saved_clear :
    saved_by_post room (mkRoomState [] [] [] (users room) (cursors room)).

(** Every operation of the log and of the redo stack is a [stroke_add],
    and the stroke it carries is among the strokes of the room. *)
Definition room_wf (room : RoomState) : Prop :=
  ∀ op, op ∈ operations room ++ redoStack room ->
    op_type op = stroke_add ∧
    ∀ stroke, op_stroke op = Some stroke -> stroke ∈ strokes room.

Definition store_wf (r : Redis) : Prop :=
  ∀ key e, keys r !! key = Some e -> room_wf (entry_value e).

(** The Redis server before anything was stored or published. *)
Definition no_redis : Redis := mkRedis ∅ [].

(* ===================================================================== *)
(** ** More of the hook: notifications, reconnection, cursor, drawing *)
(* ===================================================================== *)

(** [interface Notification] of the hook. *)
Record Notification : Type := mkNotification {
  notification_id : string;
  notification_message : string;
  notification_type : NotificationLevel;
  notification_timestamp : Z
}.

Definition MAX_NOTIFICATIONS : nat := 10.

(** The update of [prev.notifications] made by [addNotification]; the id
    and the instant come from [generateId()] and [Date.now()]. *)
Definition addNotification (message : string) (type : NotificationLevel)
    (notifId : string) (now : Z) (prev : list Notification) : list Notification :=
  slice_last (MAX_NOTIFICATIONS - 1) prev ++
  [mkNotification notifId message type now].

(** The update of [prev.notifications] made by [dismissNotification], and
    by the clean-up that [addNotification] schedules for its own id. *)
Definition dismissNotification (id : string) (prev : list Notification)
    : list Notification :=
  filter (fun n => notification_id n ≠ id) prev.

(** The delay of the reconnection after the error number
    [reconnectAttempt]: [Math.min(1000 * Math.pow(2, attempt), 30000)]. *)
Definition reconnect_delay (reconnectAttempt : nat) : Z :=
  Z.min (1000 * 2 ^ Z.of_nat reconnectAttempt) 30000.

(** [updateCursor]: from the instant of the last cursor message sent, the
    new such instant and the message sent now, if any. *)
Definition updateCursor (now : Z) (x y : JsNum) (isDrawing : bool)
    (lastPing : Z) : Z * option ClientPayload :=
  if (now - lastPing <? 33)%Z then (lastPing, None)
  else (now, Some (cursor_move (JsNumber x) (JsNumber y) isDrawing)).

(** A series of calls of [updateCursor], each at its instant; the result
    lists the instants at which a message was sent. *)
Fixpoint cursor_sends (calls : list (Z * (JsNum * JsNum * bool))) (lastPing : Z)
    : list Z :=
  match calls with
  | [] => []
  | (now, (x, y, d)) :: calls =>
      match updateCursor now x y d lastPing with
      | (lastPing', Some _) => now :: cursor_sends calls lastPing'
      | (lastPing', None) => cursor_sends calls lastPing'
      end
  end.

(** Each instant of the list is at least [gap] after the one before it,
    the first at least [gap] after [last]. *)
Fixpoint spaced (gap last : Z) (ts : list Z) : Prop :=
  match ts with
  | [] => True
  | t :: ts => (last + gap ≤ t)%Z ∧ spaced gap t ts
  end.

Record ToolSettings : Type := mkToolSettings {
  settings_tool : ToolType;
  settings_color : string;
  settings_width : JsNum;
  settings_filled : option bool
}.

(** The refs of the hook that the drawing actions read and write:
    [currentStrokeRef], [pointBatchRef] and whether a batch timer is
    pending ([batchTimeoutRef]). The drawing actions below are the part of
    the source functions that works on these refs and sends messages; their
    optimistic [setState] on the active strokes is left out. *)
Record DrawingRefs : Type := mkDrawingRefs {
  currentStroke : option Stroke;
  pointBatch : list Point;
  batchTimeout : bool
}.

Definition idle : DrawingRefs := mkDrawingRefs None [] false.

Definition MIN_POINTS_TO_SEND : nat := 2.

Definition is_shape (t : ToolType) : bool :=
  match t with
  | line | rectangle | circle => true
  | _ => false
  end.

(** Batch send points for efficiency *)
Definition flushPointBatch (refs : DrawingRefs)
    : DrawingRefs * list ClientPayload :=
  match pointBatch refs, currentStroke refs with
  | _ :: _, Some cur =>
      (mkDrawingRefs (currentStroke refs) [] (batchTimeout refs),
       [stroke_update (stroke_id cur) (Some (pointBatch refs))
          (last (pointBatch refs))])
  | _, _ => (refs, [])
  end.

Definition startStroke (me : string) (point : Point) (settings : ToolSettings)
    (strokeId : string) (now : Z) (refs : DrawingRefs)
    : DrawingRefs * list ClientPayload :=
  let stroke :=
    mkStroke strokeId me [point]
      (match settings_tool settings with
       | eraser => "#FFFFFF"
       | _ => settings_color settings
       end)
      (JsNumber (settings_width settings)) (settings_tool settings) now
      (Some point) None (settings_filled settings) in
  (mkDrawingRefs (Some stroke) (pointBatch refs) (batchTimeout refs),
   [stroke_start strokeId point (color stroke)
      (JsNumber (settings_width settings)) (settings_tool settings)]).

Definition updateStroke (point : Point) (refs : DrawingRefs)
    : DrawingRefs * list ClientPayload :=
  match currentStroke refs with
  | None => (refs, [])
  | Some cur =>
      if is_shape (tool cur) then
        (* For shapes, we only need start and end points *)
        let cur := mkStroke (stroke_id cur) (stroke_userId cur) (points cur)
                     (color cur) (width cur) (tool cur) (stroke_timestamp cur)
                     (startPoint cur) (Some point) (filled cur) in
        (mkDrawingRefs (Some cur) [point] true, [])
      else
        (* For brush/eraser, add points *)
        let cur := mkStroke (stroke_id cur) (stroke_userId cur)
                     (points cur ++ [point])
                     (color cur) (width cur) (tool cur) (stroke_timestamp cur)
                     (startPoint cur) (endPoint cur) (filled cur) in
        let batch := pointBatch refs ++ [point] in
        if bool_decide (MIN_POINTS_TO_SEND ≤ length batch) then
          flushPointBatch (mkDrawingRefs (Some cur) batch (batchTimeout refs))
        else
          (mkDrawingRefs (Some cur) batch true, [])
  end.

(** The callback of the batch timer; it runs only while a timer is
    pending. *)
Definition batchTimer (refs : DrawingRefs) : DrawingRefs * list ClientPayload :=
  if batchTimeout refs then
    let '(refs, out) := flushPointBatch refs in
    (mkDrawingRefs (currentStroke refs) (pointBatch refs) false, out)
  else (refs, []).

Definition endStroke (refs : DrawingRefs) : DrawingRefs * list ClientPayload :=
  match currentStroke refs with
  | None => (refs, [])
  | Some cur =>
      (* Flush any remaining points *)
      let '(refs, out) := flushPointBatch refs in
      (mkDrawingRefs None (pointBatch refs) (batchTimeout refs),
       out ++ [stroke_end (stroke_id cur) cur])
  end.

(** Move from active to completed: the optimistic [setState] of
    [endStroke]. *)
Definition endStroke_state (completedStroke : Stroke)
    (prev : CollaborativeCanvasState) : CollaborativeCanvasState :=
  mkCanvasState (c_strokes prev ++ [completedStroke])
    (delete (stroke_id completedStroke) (activeStrokes prev))
    (c_cursors prev) (c_users prev) (currentUser prev) (isConnected prev)
    (connectionError prev) (metrics prev) (c_operations prev)
    (canUndo prev) (canRedo prev).

(** What happens between [startStroke] and [endStroke]: a point is drawn,
    or the pending timer fires. *)
Inductive DrawEvent : Type :=
| Drawn (point : Point)
| TimerFired.

Definition draw_step (ev : DrawEvent) (refs : DrawingRefs)
    : DrawingRefs * list ClientPayload :=
  match ev with
  | Drawn point => updateStroke point refs
  | TimerFired => batchTimer refs
  end.

Fixpoint draw (evs : list DrawEvent) (refs : DrawingRefs)
    : DrawingRefs * list ClientPayload :=
  match evs with
  | [] => (refs, [])
  | ev :: evs =>
      let '(refs, out) := draw_step ev refs in
      let '(refs, out') := draw evs refs in
      (refs, out ++ out')
  end.

(** The points drawn by a series of events. *)
Definition drawn_points (evs : list DrawEvent) : list Point :=
  omap (fun ev => match ev with Drawn p => Some p | TimerFired => None end) evs.

(** The points carried by the [stroke_update] messages of [strokeId] among
    the messages sent. *)
Definition update_points (strokeId : string) (out : list ClientPayload)
    : list Point :=
  mjoin (omap (fun p =>
          match p with
          | stroke_update sid (Some pts) _ =>
              if bool_decide (sid = strokeId) then Some pts else None
          | _ => None
          end) out).

(** [sendMessage]: the envelope around a payload, as the route reads it
    from the body [JSON.stringify({ type, roomId, userId, payload,
    timestamp })]. *)
Definition sendMessage (roomId me : string) (now : Z) (p : ClientPayload)
    : WSMessage ClientPayload :=
  JSON_message JSON_client (mkWSMessage roomId (Some me) p now).

(** An ordinary client state for the examples: seven strokes on screen. *)
Definition busy_client : CollaborativeCanvasState :=
  mkCanvasState (Scenario.dots 7) ∅ ∅ ∅ None true None
    (mkPerformanceMetrics 60 12 7 2) [] (Some true) (Some false).

(** A history of requests, each with its environment, served in order. *)
Fixpoint serve_all (StringToNumber : string -> JsNum)
    (reqs : list (Env * Request)) (r : Redis) : Redis :=
  match reqs with
  | [] => r
  | (env, req) :: reqs =>
      serve_all StringToNumber reqs (serve StringToNumber env req r).2
  end.

(** The drawing actions of a session, in the order in which the canvas
    calls them. *)
Inductive HookAction : Type :=
| StartStroke (point : Point) (settings : ToolSettings) (strokeId : string)
              (now : Z)
| During (ev : DrawEvent)
| EndStroke.

Definition hook_step (me : string) (a : HookAction) (refs : DrawingRefs)
    : DrawingRefs * list ClientPayload :=
  match a with
  | StartStroke point settings strokeId now =>
      startStroke me point settings strokeId now refs
  | During ev => draw_step ev refs
  | EndStroke => endStroke refs
  end.

Fixpoint hook_run (me : string) (acts : list HookAction) (refs : DrawingRefs)
    : DrawingRefs * list ClientPayload :=
  match acts with
  | [] => (refs, [])
  | a :: acts =>
      let '(refs, out) := hook_step me a refs in
      let '(refs, out') := hook_run me acts refs in
      (refs, out ++ out')
  end.

(** At most one point waits in the batch, and none while no stroke is
    being drawn. *)
Definition batch_ok (refs : DrawingRefs) : Prop :=
  length (pointBatch refs) ≤ 1 ∧
  (currentStroke refs = None -> pointBatch refs = []).

(** The messages of a session posted one after the other. *)
Fixpoint post_all (StringToNumber : string -> JsNum) (env : Env)
    (rid me : string) (ps : list ClientPayload) (r : Redis) : Redis :=
  match ps with
  | [] => r
  | p :: ps =>
      post_all StringToNumber env rid me ps
        (POST StringToNumber env (sendMessage rid me (now env) p) r).2
  end.

(** The points carried by the [stroke_update] events of [strokeId] among
    what was published. *)
Definition relayed_points (strokeId : string)
    (events : list (string * WSMessage ServerPayload)) : list Point :=
  mjoin (omap (fun e =>
          match payload e.2 with
          | stroke_updated sid pts _ =>
              if bool_decide (sid = strokeId) then Some pts else None
          | _ => None
          end) events).

(** The strokes committed by the [stroke_end] events among what was
    published. *)
Definition committed_strokes
    (events : list (string * WSMessage ServerPayload)) : list Stroke :=
  omap (fun e =>
          match payload e.2 with
          | stroke_ended _ stroke _ _ _ => Some stroke
          | _ => None
          end) events.

(** A brush at work, for the examples. *)
Definition red_brush : ToolSettings :=
  mkToolSettings brush "#FF0000" (num_of_Z 4) None.
Definition red_line : ToolSettings :=
  mkToolSettings line "#FF0000" (num_of_Z 4) None.

(** The refs of a session that started the stroke "s0" and drew one point
    of it: that point waits in the batch, and the stroke is not ended. *)
Definition unfinished : DrawingRefs :=
  (hook_run "A"
     [StartStroke (Scenario.pt 1 1) red_brush "s0" 1400;
      During (Drawn (Scenario.pt 2 2))] idle).1.

(** The stroke that a posted [stroke_end] commits, as its JSON text has
    it. *)
Definition committed (p : ClientPayload) : option Stroke :=
  match p with
  | stroke_end _ s => Some (JSON_stroke s)
  | _ => None
  end.

(* ===================================================================== *)
(** ** Reading a JSON text twice changes nothing *)
(* ===================================================================== *)

Lemma JSON_value_idemp v : JSON_value (JSON_value v) = JSON_value v.
Proof. by destruct v as [| | |[]|]. Qed.

Lemma JSON_point_idemp p : JSON_point (JSON_point p) = JSON_point p.
Proof.
  destruct p as [px py [pp|]]; unfold JSON_point; simpl;
    by rewrite !JSON_value_idemp.
Qed.

Lemma fmap_idemp {A} (f : A -> A) (l : list A) :
  (∀ a, f (f a) = f a) -> f <$> (f <$> l) = f <$> l.
Proof.
  intros Hf. rewrite <- list_fmap_compose. apply list_fmap_ext.
  intros _ a _. apply Hf.
Qed.

Lemma option_fmap_idemp {A} (f : A -> A) (o : option A) :
  (∀ a, f (f a) = f a) -> f <$> (f <$> o) = f <$> o.
Proof. intros Hf. destruct o; simpl; by rewrite ?Hf. Qed.

Lemma JSON_stroke_idemp s : JSON_stroke (JSON_stroke s) = JSON_stroke s.
Proof.
  unfold JSON_stroke. simpl.
  by rewrite (fmap_idemp _ _ JSON_point_idemp), JSON_value_idemp,
    !(option_fmap_idemp _ _ JSON_point_idemp).
Qed.

Lemma JSON_operation_idemp o :
  JSON_operation (JSON_operation o) = JSON_operation o.
Proof.
  unfold JSON_operation. simpl.
  by rewrite (option_fmap_idemp _ _ JSON_stroke_idemp).
Qed.

Lemma JSON_cursor_idemp c : JSON_cursor (JSON_cursor c) = JSON_cursor c.
Proof. unfold JSON_cursor. simpl. by rewrite !JSON_value_idemp. Qed.

Lemma JSON_room_idemp room : JSON_room (JSON_room room) = JSON_room room.
Proof.
  unfold JSON_room. simpl.
  rewrite (fmap_idemp _ _ JSON_stroke_idemp),
    !(fmap_idemp _ _ JSON_operation_idemp).
  f_equal. rewrite <- map_fmap_compose. apply map_fmap_ext.
  intros _ c _. apply JSON_cursor_idemp.
Qed.

(** A list that is read back as it is, is so element by element. *)
Lemma fmap_snoc_fixed {A} (f : A -> A) (l : list A) (a : A) :
  f <$> (l ++ [a]) = l ++ [a] -> f <$> l = l ∧ f a = a.
Proof.
  rewrite fmap_app. simpl. intros H.
  apply app_inj_1 in H as [H1 H2]; [|by rewrite length_fmap].
  split; [done|]. by injection H2.
Qed.

Lemma fmap_fixed {A} (f : A -> A) (l : list A) :
  (∀ a, a ∈ l -> f a = a) -> f <$> l = l.
Proof.
  induction l as [|a l IH]; [done|]. intros H. simpl. f_equal.
  - apply H. left.
  - apply IH. intros b Hb. apply H. by right.
Qed.

Lemma values_fixed {V} (f : V -> V) (m : gmap string V) :
  f <$> m = m -> f <$> values m = values m.
Proof.
  intros Hm. apply fmap_fixed. intros v Hv. unfold values in Hv.
  apply list_elem_of_fmap in Hv as ([k v'] & -> & Hkv). simpl.
  apply elem_of_map_to_list in Hkv.
  assert (H : (f <$> m) !! k = Some (f v')) by by rewrite lookup_fmap, Hkv.
  rewrite Hm, Hkv in H. by injection H.
Qed.

(** What the fields of a room are, when it is read back as it is. *)
Lemma JSON_room_fixed room :
  JSON_room room = room ->
  JSON_stroke <$> strokes room = strokes room ∧
  JSON_operation <$> operations room = operations room ∧
  JSON_operation <$> redoStack room = redoStack room ∧
  JSON_cursor <$> cursors room = cursors room.
Proof. destruct room. unfold JSON_room. simpl. by intros [= -> -> -> ->]. Qed.

(* ===================================================================== *)
(** ** Redis and the room helpers *)
(* ===================================================================== *)

(** Unfolds the monadic plumbing of a handler applied to a store. *)
Ltac run_eff :=
  unfold mbind, Eff_bind, mret, Eff_ret, saveRoom, broadcastToRoom,
    redis_setEx, redis_publish; simpl.

Lemma getRoom_room_of env rid r : getRoom env rid r = (room_of env r rid, r).
Proof.
  unfold room_of, getRoom, mbind, Eff_bind, redis_get.
  destruct (keys r !! room_key rid) as [e|]; [|reflexivity].
  destruct (now env <? expires_at e)%Z; reflexivity.
Qed.

Lemma room_of_keys env r r' rid :
  keys r' = keys r -> room_of env r' rid = room_of env r rid.
Proof.
  intros Hk. unfold room_of, getRoom, mbind, Eff_bind, redis_get.
  rewrite Hk.
  destruct (keys r !! room_key rid) as [e|]; [|reflexivity].
  destruct (now env <? expires_at e)%Z; reflexivity.
Qed.

(** Of the environment, only the clock matters to a read. *)
Lemma room_of_now env env' r rid :
  now env = now env' -> room_of env r rid = room_of env' r rid.
Proof.
  intros Hnow. unfold room_of, getRoom, mbind, Eff_bind, redis_get.
  by rewrite Hnow.
Qed.

(** A room made of parts that are read back as they are, is read back as
    it is. *)
Lemma JSON_room_parts ss ops rs us cs :
  JSON_stroke <$> ss = ss -> JSON_operation <$> ops = ops ->
  JSON_operation <$> rs = rs -> JSON_cursor <$> cs = cs ->
  JSON_room (mkRoomState ss ops rs us cs) = mkRoomState ss ops rs us cs.
Proof. intros Hs Ho Hr Hc. unfold JSON_room. simpl. by rewrite Hs, Ho, Hr, Hc. Qed.

(** Every room that is loaded is read back as it is. *)
Lemma room_of_JSON env r rid :
  JSON_room (room_of env r rid) = room_of env r rid.
Proof.
  unfold room_of, getRoom, mbind, Eff_bind, redis_get.
  destruct (keys r !! room_key rid) as [e|]; [|reflexivity].
  destruct (now env <? expires_at e)%Z; [|reflexivity].
  apply JSON_room_idemp.
Qed.

(** The rooms that the handlers save are read back as they are. *)
Lemma fixed_stroke_end room s i u n t :
  JSON_room room = room ->
  let room' :=
    mkRoomState (strokes room ++ [JSON_stroke s])
      (operations room ++
         [mkOperation i stroke_add (Some (JSON_stroke s)) None u n t])
      [] (users room) (cursors room) in
  JSON_room room' = room'.
Proof.
  intros (Hs & Ho & _ & Hc)%JSON_room_fixed. cbv zeta.
  apply JSON_room_parts; rewrite ?fmap_app, ?Hs, ?Ho; simpl;
    unfold JSON_operation; simpl; by rewrite ?JSON_stroke_idemp.
Qed.

Lemma fixed_undo room ops op :
  JSON_room room = room ->
  operations room = ops ++ [op] ->
  let room' :=
    mkRoomState (strokes room) ops (redoStack room ++ [op])
      (users room) (cursors room) in
  JSON_room room' = room'.
Proof.
  intros (Hs & Ho & Hr & Hc)%JSON_room_fixed Hops.
  rewrite Hops in Ho. apply fmap_snoc_fixed in Ho as [Ho Hop]. cbv zeta.
  apply JSON_room_parts; rewrite ?fmap_app, ?Hr; simpl; by rewrite ?Hop.
Qed.

Lemma fixed_redo room rs op :
  JSON_room room = room ->
  redoStack room = rs ++ [op] ->
  let room' :=
    mkRoomState (strokes room) (operations room ++ [op]) rs
      (users room) (cursors room) in
  JSON_room room' = room'.
Proof.
  intros (Hs & Ho & Hr & Hc)%JSON_room_fixed Hrs.
  rewrite Hrs in Hr. apply fmap_snoc_fixed in Hr as [Hr Hop]. cbv zeta.
  apply JSON_room_parts; rewrite ?fmap_app, ?Ho; simpl; by rewrite ?Hop.
Qed.

Lemma fixed_clear room :
  JSON_room room = room ->
  let room' := mkRoomState [] [] [] (users room) (cursors room) in
  JSON_room room' = room'.
Proof.
  intros (_ & _ & _ & Hc)%JSON_room_fixed. cbv zeta. by apply JSON_room_parts.
Qed.

Lemma fixed_users room us :
  JSON_room room = room ->
  let room' :=
    mkRoomState (strokes room) (operations room) (redoStack room) us
      (cursors room) in
  JSON_room room' = room'.
Proof.
  intros (? & ? & ? & ?)%JSON_room_fixed. cbv zeta. by apply JSON_room_parts.
Qed.

Lemma fixed_leave room us uid :
  JSON_room room = room ->
  let room' :=
    mkRoomState (strokes room) (operations room) (redoStack room) us
      (delete uid (cursors room)) in
  JSON_room room' = room'.
Proof.
  intros (? & ? & ? & Hc)%JSON_room_fixed. cbv zeta.
  apply JSON_room_parts; try done. by rewrite fmap_delete, Hc.
Qed.

Create HintDb json discriminated.
#[local] Hint Resolve room_of_JSON fixed_stroke_end fixed_undo fixed_redo
  fixed_clear fixed_users fixed_leave : json.

(** A saved room is read back from its text for one day. *)
Lemma room_of_read env env' ks pub rid room :
  (now env' < now env + DAY_MS)%Z ->
  room_of env' (mkRedis (<[room_key rid := mkEntry room (now env + TTL_SECONDS * 1000)]> ks) pub) rid
  = JSON_room room.
Proof.
  intros Hlt. unfold room_of, getRoom, mbind, Eff_bind, redis_get. simpl.
  rewrite lookup_insert_eq. simpl.
  replace (now env' <? now env + TTL_SECONDS * 1000)%Z with true; [reflexivity|].
  symmetry. apply Z.ltb_lt. exact Hlt.
Qed.

Lemma room_of_stored env env' ks pub rid room :
  JSON_room room = room ->
  (now env' < now env + DAY_MS)%Z ->
  room_of env' (mkRedis (<[room_key rid := mkEntry room (now env + TTL_SECONDS * 1000)]> ks) pub) rid
  = room.
Proof. intros Hn Hlt. by rewrite room_of_read, Hn. Qed.

Lemma room_of_expired env env' ks pub rid room :
  (now env + DAY_MS ≤ now env')%Z ->
  room_of env' (mkRedis (<[room_key rid := mkEntry room (now env + TTL_SECONDS * 1000)]> ks) pub) rid
  = empty_room.
Proof.
  intros Hle. unfold room_of, getRoom, mbind, Eff_bind, redis_get. simpl.
  rewrite lookup_insert_eq. simpl.
  replace (now env' <? now env + TTL_SECONDS * 1000)%Z with false; [reflexivity|].
  symmetry. apply Z.ltb_ge. exact Hle.
Qed.

Lemma room_of_stored_now env ks pub rid room :
  JSON_room room = room ->
  room_of env (mkRedis (<[room_key rid := mkEntry room (now env + TTL_SECONDS * 1000)]> ks) pub) rid
  = room.
Proof. intros Hn. apply room_of_stored; [done|]. unfold DAY_MS, TTL_SECONDS. lia. Qed.

Lemma emitted_app r ks l :
  emitted r (mkRedis ks (published r ++ l)) = l.
Proof. unfold emitted. simpl. by rewrite drop_app_length. Qed.

Lemma emitted_refl r : emitted r r = [].
Proof. unfold emitted. by rewrite drop_all. Qed.

Lemma pop_app {A} (l : list A) (a : A) : pop (l ++ [a]) = Some (l, a).
Proof. unfold pop. by rewrite last_snoc, removelast_last. Qed.

Lemma pop_Some {A} (l l' : list A) (a : A) :
  pop l = Some (l', a) -> l = l' ++ [a].
Proof.
  destruct l as [|b l] using rev_ind; [discriminate|].
  rewrite pop_app. by intros [= -> ->].
Qed.

Lemma pop_None {A} (l : list A) : pop l = None -> l = [].
Proof.
  destruct l as [|b l] using rev_ind; [done|]. by rewrite pop_app.
Qed.

(* ===================================================================== *)
(** ** POST: the guards, then each case of the switch *)
(* ===================================================================== *)

Section Engine.
Variable StringToNumber : string -> JsNum.

Lemma POST_member env r rid uid user p ts :
  member env r rid uid user ->
  POST StringToNumber env (mkWSMessage rid (Some uid) p ts) r
  = switch StringToNumber env rid uid user (room_of env r rid) p r.
Proof.
  intros (Hrid & Huid & Hu). unfold POST. simpl.
  apply String.eqb_neq in Hrid, Huid. rewrite Hrid, Huid. simpl.
  unfold mbind at 1, Eff_bind at 1. rewrite getRoom_room_of.
  by rewrite Hu.
Qed.

Lemma switch_stroke_end env r rid uid user room sid stroke :
  JSON_room room = room ->
  switch StringToNumber env rid uid user room (stroke_end sid stroke) r
  = let op := mkOperation (generateId env) stroke_add
                (Some (JSON_stroke stroke)) None uid
                (param_or (Some (user_name user)) "Unknown") (now env) in
    (ok,
     mkRedis
       (<[room_key rid :=
            mkEntry (mkRoomState (strokes room ++ [JSON_stroke stroke])
                       (operations room ++ [op])
                       [] (users room) (cursors room))
                    (now env + TTL_SECONDS * 1000)]> (keys r))
       (published r ++
          [(room_channel rid,
            mkWSMessage rid (Some uid)
              (stroke_ended sid (JSON_stroke stroke) (Some op)
                 (Some true) (Some false))
              (now env))])).
Proof.
  intros (Hs & Ho & _ & Hc)%JSON_room_fixed. simpl. run_eff.
  unfold JSON_room. simpl. rewrite !fmap_app, Hs, Ho, Hc. reflexivity.
Qed.

Lemma switch_undo env r rid uid user room ops op :
  JSON_room room = room ->
  operations room = ops ++ [op] ->
  switch StringToNumber env rid uid user room undo r
  = (ok,
     mkRedis
       (<[room_key rid :=
            mkEntry (mkRoomState (strokes room) ops (redoStack room ++ [op])
                       (users room) (cursors room))
                    (now env + TTL_SECONDS * 1000)]> (keys r))
       (published r ++
          [(room_channel rid,
            mkWSMessage rid (Some uid)
              (undone op None (bool_decide (0 < length ops)) true) (now env))])).
Proof.
  intros (Hs & Ho & Hr & Hc)%JSON_room_fixed Hops. simpl.
  rewrite Hops, pop_app. run_eff.
  rewrite Hops in Ho. apply fmap_snoc_fixed in Ho as [Ho Hop].
  unfold JSON_room, JSON_message. simpl.
  rewrite !fmap_app, Hs, Ho, Hr, Hc. simpl. rewrite Hop. reflexivity.
Qed.

Lemma switch_undo_nothing env r rid uid user room :
  operations room = [] ->
  switch StringToNumber env rid uid user room undo r = (ok, r).
Proof. intros Hops. simpl. rewrite Hops. reflexivity. Qed.

Lemma switch_redo env r rid uid user room rs op :
  JSON_room room = room ->
  redoStack room = rs ++ [op] ->
  switch StringToNumber env rid uid user room redo r
  = (ok,
     mkRedis
       (<[room_key rid :=
            mkEntry (mkRoomState (strokes room) (operations room ++ [op]) rs
                       (users room) (cursors room))
                    (now env + TTL_SECONDS * 1000)]> (keys r))
       (published r ++
          [(room_channel rid,
            mkWSMessage rid (Some uid)
              (redone op None true (bool_decide (0 < length rs))) (now env))])).
Proof.
  intros (Hs & Ho & Hr & Hc)%JSON_room_fixed Hrs. simpl.
  rewrite Hrs, pop_app. run_eff.
  rewrite Hrs in Hr. apply fmap_snoc_fixed in Hr as [Hr Hop].
  unfold JSON_room, JSON_message. simpl.
  rewrite !fmap_app, Hs, Ho, Hr, Hc. simpl. rewrite Hop. reflexivity.
Qed.

Lemma switch_redo_nothing env r rid uid user room :
  redoStack room = [] ->
  switch StringToNumber env rid uid user room redo r = (ok, r).
Proof. intros Hrs. simpl. rewrite Hrs. reflexivity. Qed.

Lemma switch_clear env r rid uid user room :
  JSON_room room = room ->
  switch StringToNumber env rid uid user room clear r
  = (ok,
     mkRedis
       (<[room_key rid :=
            mkEntry (mkRoomState [] [] [] (users room) (cursors room))
                    (now env + TTL_SECONDS * 1000)]> (keys r))
       (published r ++
          [(room_channel rid,
            mkWSMessage rid (Some uid) (cleared None None) (now env))])).
Proof.
  intros (_ & _ & _ & Hc)%JSON_room_fixed. simpl. run_eff.
  unfold JSON_room. simpl. rewrite Hc. reflexivity.
Qed.

(** The cases that never write the room. *)
Lemma switch_keeps_keys env r rid uid user room p :
  match p with
  | stroke_start _ _ _ _ _ | stroke_update _ _ _ | cursor_move _ _ _
  | notification _ | no_payload _ | unhandled _ => True
  | _ => False
  end ->
  keys (switch StringToNumber env rid uid user room p r).2 = keys r.
Proof.
  destruct p as [? ? ? ? ?|? pts ?|? ?|cx cy ?| | | |?|?|?]; try done; intros _.
  - by destruct pts as [[|]|].
  - by destruct cx, cy.
Qed.

End Engine.

(* ===================================================================== *)
(** ** The redo stack and a fresh forward action *)
(* ===================================================================== *)

(** C4. Every [stroke_end] of a member leaves the redo stack empty, whatever
    it held before, appends its [stroke_add] operation to the log and
    broadcasts [canUndo = true], [canRedo = false]; the stroke is stored and
    broadcast as its JSON text has it. More generally, any
    request of a member other than [redo] that makes the operation log grow
    leaves the redo stack empty, and every flag pair it broadcasts has
    [canRedo = false]. *)
Theorem redo_cleared_by_new_operation
    (StringToNumber : string -> JsNum) env r rid uid user p ts :
  member env r rid uid user ->
  p ≠ redo ->
  let r' := (POST StringToNumber env (mkWSMessage rid (Some uid) p ts) r).2 in
  let room := room_of env r rid in
  let room' := room_of env r' rid in
  (∀ sid stroke, p = stroke_end sid stroke ->
     redoStack room' = [] ∧
     ∃ op, op_type op = stroke_add ∧
           op_stroke op = Some (JSON_stroke stroke) ∧
           operations room' = operations room ++ [op] ∧
           emitted r r' =
             [(room_channel rid,
               mkWSMessage rid (Some uid)
                 (stroke_ended sid (JSON_stroke stroke) (Some op)
                    (Some true) (Some false))
                 (now env))]) ∧
  (length (operations room) < length (operations room') ->
     redoStack room' = [] ∧
     ∀ e cu cr, e ∈ emitted r r' ->
       carried_flags (payload e.2) = Some (cu, cr) -> cr = false).
Proof.
  intros Hm Hp r' room room'. subst r' room' room.
  rewrite (POST_member _ _ _ _ _ _ _ _ Hm).
  split.
  - intros sid stroke ->. rewrite switch_stroke_end by apply room_of_JSON.
    simpl.
    rewrite room_of_stored_now by eauto with json. rewrite emitted_app. simpl.
    split; [reflexivity|]. eexists. repeat split; reflexivity.
  - destruct p as [? ? ? ? ?|? pts ?|sid stroke|cx cy ?| | | |?|?|?].
    5: {
      destruct (pop (operations (room_of env r rid))) as [[ops op]|] eqn:Hpop.
      - apply pop_Some in Hpop.
        rewrite (switch_undo _ _ _ _ _ _ _ _ _ (room_of_JSON _ _ _) Hpop).
        simpl.
        rewrite room_of_stored_now by eauto with json. simpl.
        rewrite Hpop, length_app. simpl. lia.
      - apply pop_None in Hpop.
        rewrite (switch_undo_nothing _ _ _ _ _ _ _ Hpop). simpl. lia. }
    5: done.
    3: {
      rewrite switch_stroke_end by apply room_of_JSON. simpl.
      rewrite room_of_stored_now by eauto with json. rewrite emitted_app. simpl.
      intros _.
      split; [reflexivity|].
      intros e cu cr ->%list_elem_of_singleton. simpl. by intros [= _ <-]. }
    4: {
      rewrite switch_clear by apply room_of_JSON. simpl.
      rewrite room_of_stored_now by eauto with json. simpl. lia. }
    all: rewrite (room_of_keys env r (switch _ _ _ _ _ _ _ _).2)
           by (by apply switch_keeps_keys); lia.
Qed.

Lemma redo_cleared_by_new_operation_witness :
  redoStack (room_of (Scenario.env_at 3000 "op-3") Scenario.after_undo "R1")
    = [Scenario.op2] ∧
  redoStack
    (room_of (Scenario.env_at 3000 "op-3")
       (POST Scenario.no_strings (Scenario.env_at 3000 "op-3")
          (mkWSMessage "R1" (Some "A") (stroke_end "s1" Scenario.s1) 3000)
          Scenario.after_undo).2 "R1") = [].
Proof.
  split; [reflexivity|].
  refine (proj1 (proj1 (redo_cleared_by_new_operation Scenario.no_strings
            (Scenario.env_at 3000 "op-3") Scenario.after_undo "R1" "A" Scenario.A
            (stroke_end "s1" Scenario.s1) 3000 _ _) "s1" Scenario.s1 eq_refl)).
  - split; [discriminate | split; [discriminate | vm_compute; reflexivity]].
  - discriminate.
Defined.

(* ===================================================================== *)
(** ** GET and cancel as functions of the stored room *)
(* ===================================================================== *)

Lemma GET_unfold env q r :
  GET env q r =
  let rid := param_or (q_roomId q) "default" in
  let uid := param_or (q_userId q) (generateId env) in
  let room := room_of env r rid in
  let user := mkUser uid (param_or (q_userName q) "Anonymous")
                (getRandomUserColor env) (now env) true in
  if bool_decide (MAX_USERS ≤ size (users room)) then
    (TextResponse "Room is full" 503, r)
  else
    (StreamResponse
       [mkWSMessage rid (Some uid)
          (sync_state (strokes room) (values (<[uid := user]> (users room)))
             (values (cursors room)) user (Some (operations room))
             (Some (bool_decide (0 < length (operations room))))
             (Some (bool_decide (0 < length (redoStack room)))))
          (now env)],
     mkRedis
       (<[room_key rid :=
            mkEntry (mkRoomState (strokes room) (operations room) (redoStack room)
                       (<[uid := user]> (users room)) (cursors room))
                    (now env + TTL_SECONDS * 1000)]> (keys r))
       (published r ++
          [(room_channel rid, mkWSMessage rid (Some uid) (user_joined user) (now env))])).
Proof.
  unfold GET. unfold mbind at 1, Eff_bind at 1. rewrite getRoom_room_of.
  simpl. destruct (bool_decide (MAX_USERS ≤ _)); [reflexivity|].
  destruct (JSON_room_fixed _
              (room_of_JSON env r (param_or (q_roomId q) "default")))
    as (Hs & Ho & Hr & Hc).
  run_eff. unfold JSON_room, JSON_message. simpl.
  rewrite (values_fixed _ _ Hc), Hs, Ho, Hr, Hc. reflexivity.
Qed.

Lemma cancel_unfold env rid uid r :
  cancel env rid uid r =
  let room := room_of env r rid in
  (tt,
   mkRedis
     (<[room_key rid :=
          mkEntry (mkRoomState (strokes room) (operations room) (redoStack room)
                     (delete uid (users room)) (delete uid (cursors room)))
                  (now env + TTL_SECONDS * 1000)]> (keys r))
     (published r ++
        [(room_channel rid, mkWSMessage rid (Some uid) (user_left uid) (now env))])).
Proof.
  unfold cancel. unfold mbind at 1, Eff_bind at 1. rewrite getRoom_room_of.
  destruct (JSON_room_fixed _ (room_of_JSON env r rid)) as (Hs & Ho & Hr & Hc).
  run_eff. unfold JSON_room, JSON_message. simpl.
  rewrite fmap_delete, Hs, Ho, Hr, Hc. reflexivity.
Qed.

(* ===================================================================== *)
(** ** The undo and redo flags of outbound messages *)
(* ===================================================================== *)

Lemma nonempty_snoc {A} (l : list A) (a : A) :
  bool_decide (0 < length (l ++ [a])) = true.
Proof. apply bool_decide_eq_true. rewrite length_app. simpl. lia. Qed.

(** A POST either stops at a guard, without touching Redis, or runs the
    switch for a member. *)
Lemma POST_guards (StringToNumber : string -> JsNum) env rid ouid p ts r :
  (∃ resp, resp ≠ ok ∧
     POST StringToNumber env (mkWSMessage rid ouid p ts) r = (resp, r)) ∨
  (∃ uid user, ouid = Some uid ∧ member env r rid uid user).
Proof.
  destruct ouid as [uid|]; [|left; eexists; split; [|reflexivity]; done].
  destruct (decide (rid = EmptyString)) as [->|Hrid].
  { left. eexists. split; [|reflexivity]. done. }
  destruct (decide (uid = EmptyString)) as [->|Huid].
  { left. eexists.
  split; [|unfold POST; simpl; rewrite orb_true_r; reflexivity].
    done. }
  destruct (users (room_of env r rid) !! uid) as [user|] eqn:Hu.
  - right. by exists uid, user.
  - left. eexists. split; [|unfold POST; simpl].
    2: { apply String.eqb_neq in Hrid, Huid. rewrite Hrid, Huid. simpl.
         unfold mbind at 1, Eff_bind at 1. rewrite getRoom_room_of.
         rewrite Hu. reflexivity. }
    done.
Qed.

(** Only four kinds of outbound message carry the two flags. *)
Lemma carried_flags_types p cu cr :
  carried_flags p = Some (cu, cr) ->
  server_type p ∈ [t_sync_state; t_stroke_end; t_undo; t_redo].
Proof.
  destruct p as [? ? ? ? ? [?|] [?|]| | |? ? ? [?|] [?|]| | | | | | |];
    simpl; try done; intros _; set_solver.
Qed.

(** C10. In every outbound message that carries the two flags (the
    [sync_state] enqueued for a new session, and the [stroke_end], [undo]
    and [redo] broadcasts), [canUndo] says that the operation log is
    non-empty and [canRedo] that the redo stack is non-empty, in the room as
    the request leaves it. *)
Theorem flags_match_state (StringToNumber : string -> JsNum) env req r m cu cr :
  m ∈ sent StringToNumber env req r ->
  carried_flags (payload m) = Some (cu, cr) ->
  let room' :=
    room_of env (serve StringToNumber env req r).2 (request_room req) in
  cu = bool_decide (0 < length (operations room')) ∧
  cr = bool_decide (0 < length (redoStack room')).
Proof.
  intros Hin Hflags room'. subst room'. unfold sent in Hin.
  destruct req as [q|[rid ouid p ts]|rid uid]; simpl in *.
  - (* join *)
    rewrite GET_unfold in *. simpl in *.
    destruct (bool_decide (MAX_USERS ≤ _)); simpl in *.
    + rewrite emitted_refl in Hin. by apply elem_of_nil in Hin.
    + rewrite emitted_app in Hin. rewrite room_of_stored_now by eauto with json.
      simpl in *.
      apply elem_of_cons in Hin as [->|Hin]; [simpl in Hflags; by simplify_eq|].
      apply list_elem_of_singleton in Hin as ->. done.
  - (* post *)
    destruct (POST_guards StringToNumber env rid ouid p ts r)
      as [(resp & Hresp & Heq)|(uid & user & -> & Hm)].
    { rewrite Heq in Hin. rewrite emitted_refl in Hin.
      destruct resp; simpl in Hin; try by apply elem_of_nil in Hin.
      exfalso. revert Heq. unfold POST. simpl.
      destruct ouid as [uid|]; [|done].
      destruct (_ || _); [done|].
      unfold mbind at 1, Eff_bind at 1. rewrite getRoom_room_of.
      destruct (users _ !! uid); [|done].
      destruct p as [? ? ? ? ?|? pts ?|? ?|cx cy ?| | | |?|?|?]; simpl;
        try done.
      - by destruct pts as [[|]|].
      - by destruct cx, cy.
      - by destruct (pop _) as [[? ?]|].
      - by destruct (pop _) as [[? ?]|]. }
    rewrite (POST_member _ _ _ _ _ _ _ _ Hm) in *.
    destruct p as [? ? ? ? ?|? pts ?|sid stroke|cx cy ?| | | |?|?|?].
    + revert Hin. run_eff. rewrite emitted_app. simpl.
      intros ->%list_elem_of_singleton. done.
    + revert Hin. destruct pts as [[|pt pts]|]; run_eff;
        rewrite ?emitted_app, ?emitted_refl; simpl;
        try (by intros []%elem_of_nil).
      intros ->%list_elem_of_singleton. done.
    + rewrite switch_stroke_end in * by apply room_of_JSON. simpl in *.
      rewrite emitted_app in Hin. rewrite room_of_stored_now by eauto with json.
      simpl in *.
      apply list_elem_of_singleton in Hin as ->. simpl in Hflags.
      simplify_eq. by rewrite nonempty_snoc.
    + revert Hin. destruct cx, cy; run_eff;
        rewrite ?emitted_app, ?emitted_refl; simpl;
        try (by intros []%elem_of_nil).
      intros ->%list_elem_of_singleton. done.
    + destruct (pop (operations (room_of env r rid))) as [[ops op]|] eqn:Hpop.
      * apply pop_Some in Hpop.
        rewrite (switch_undo _ _ _ _ _ _ _ _ _ (room_of_JSON _ _ _) Hpop) in *.
        simpl in *.
        rewrite emitted_app in Hin.
        rewrite room_of_stored_now by eauto with json. simpl.
        apply list_elem_of_singleton in Hin as ->. simpl in Hflags.
        simplify_eq. by rewrite nonempty_snoc.
      * apply pop_None in Hpop.
        rewrite (switch_undo_nothing _ _ _ _ _ _ _ Hpop) in *. simpl in *.
        rewrite emitted_refl in Hin. by apply elem_of_nil in Hin.
    + destruct (pop (redoStack (room_of env r rid))) as [[rs op]|] eqn:Hpop.
      * apply pop_Some in Hpop.
        rewrite (switch_redo _ _ _ _ _ _ _ _ _ (room_of_JSON _ _ _) Hpop) in *.
        simpl in *.
        rewrite emitted_app in Hin.
        rewrite room_of_stored_now by eauto with json. simpl.
        apply list_elem_of_singleton in Hin as ->. simpl in Hflags.
        simplify_eq. by rewrite nonempty_snoc.
      * apply pop_None in Hpop.
        rewrite (switch_redo_nothing _ _ _ _ _ _ _ Hpop) in *. simpl in *.
        rewrite emitted_refl in Hin. by apply elem_of_nil in Hin.
    + rewrite switch_clear in * by apply room_of_JSON. simpl in *.
      rewrite emitted_app in Hin.
      apply list_elem_of_singleton in Hin as ->. done.
    + revert Hin. run_eff. rewrite emitted_app. simpl.
      intros ->%list_elem_of_singleton. done.
    + simpl in Hin. rewrite emitted_refl in Hin.
      by apply elem_of_nil in Hin.
    + simpl in Hin. rewrite emitted_refl in Hin.
      by apply elem_of_nil in Hin.
  - (* leave *)
    revert Hin. unfold mbind, Eff_bind. rewrite cancel_unfold. simpl.
    rewrite emitted_app. simpl. intros ->%list_elem_of_singleton. done.
Qed.

Lemma flags_match_state_witness :
  true = bool_decide
           (0 < length (operations
                          (room_of (Scenario.env_at 3000 "id")
                             (Scenario.post 3000 "id" "A" undo Scenario.drawn) "R1"))) ∧
  true = bool_decide
           (0 < length (redoStack
                          (room_of (Scenario.env_at 3000 "id")
                             (Scenario.post 3000 "id" "A" undo Scenario.drawn) "R1"))).
Proof.
  refine (flags_match_state Scenario.no_strings (Scenario.env_at 3000 "id")
            (Post (mkWSMessage "R1" (Some "A") undo 3000)) Scenario.drawn
            (mkWSMessage "R1" (Some "A") (undone Scenario.op2 None true true) 3000)
            true true _ _).
  - vm_compute. apply list_elem_of_here.
  - reflexivity.
Defined.

(* ===================================================================== *)
(** ** Undo, redo and clear on the canonical strokes *)
(* ===================================================================== *)

(** The undo case moves the tail of the log to the redo stack and keeps
    the strokes as they are. *)
Lemma undo_keeps_strokes (StringToNumber : string -> JsNum)
    env r rid uid user ts ops op :
  member env r rid uid user ->
  operations (room_of env r rid) = ops ++ [op] ->
  let room := room_of env r rid in
  let room' :=
    room_of env (POST StringToNumber env (mkWSMessage rid (Some uid) undo ts) r).2 rid in
  strokes room' = strokes room ∧ operations room' = ops ∧
  redoStack room' = redoStack room ++ [op].
Proof.
  intros Hm Hops. simpl. rewrite (POST_member _ _ _ _ _ _ _ _ Hm).
  rewrite (switch_undo _ _ _ _ _ _ _ _ _ (room_of_JSON _ _ _) Hops). simpl.
  by rewrite room_of_stored_now by eauto with json.
Qed.


(** The reducer keeps its strokes on an [undo] or [redo] event that
    carries no stroke list, as all those of the server. *)
Lemma echo_keeps_client_strokes me rid uid op cu cr ts c :
  c_strokes (handleMessage me (mkWSMessage rid uid (undone op None cu cr) ts) c)
    = c_strokes c ∧
  c_strokes (handleMessage me (mkWSMessage rid uid (redone op None cu cr) ts) c)
    = c_strokes c.
Proof. split; reflexivity. Qed.

(** A room that was just saved is read back whole or, once expired, as
    the empty room. *)
Lemma room_of_stored_cases env env' ks pub rid room :
  JSON_room room = room ->
  room_of env' (mkRedis (<[room_key rid := mkEntry room (now env + TTL_SECONDS * 1000)]> ks) pub) rid
    = room ∨
  room_of env' (mkRedis (<[room_key rid := mkEntry room (now env + TTL_SECONDS * 1000)]> ks) pub) rid
    = empty_room.
Proof.
  intros Hn. destruct (decide (now env' < now env + DAY_MS)%Z) as [Hlt|Hge].
  - left. by apply room_of_stored.
  - right. apply room_of_expired. lia.
Qed.

(** For every room: a commit followed by an undo leaves the committed
    stroke in the canonical strokes. *)
Lemma add_then_undo_keeps_stroke (StringToNumber : string -> JsNum)
    env env' r rid uid uid' user user' sid stroke ts ts' :
  member env r rid uid user ->
  let r1 :=
    (POST StringToNumber env
       (mkWSMessage rid (Some uid) (stroke_end sid stroke) ts) r).2 in
  member env' r1 rid uid' user' ->
  let r2 :=
    (POST StringToNumber env' (mkWSMessage rid (Some uid') undo ts') r1).2 in
  strokes (room_of env' r2 rid)
    = strokes (room_of env r rid) ++ [JSON_stroke stroke] ∧
  operations (room_of env' r2 rid) = operations (room_of env r rid).
Proof.
  intros Hm r1 Hm1 r2. subst r2.
  assert (Hr1 : ∃ op,
    room_of env' r1 rid =
      mkRoomState (strokes (room_of env r rid) ++ [JSON_stroke stroke])
        (operations (room_of env r rid) ++ [op]) []
        (users (room_of env r rid)) (cursors (room_of env r rid))).
  { destruct Hm1 as (_ & _ & Hu). revert Hu. subst r1.
    rewrite (POST_member _ _ _ _ _ _ _ _ Hm).
    rewrite switch_stroke_end by apply room_of_JSON. simpl.
    match goal with
    | |- context [room_of env' (mkRedis (<[_ := mkEntry ?room _]> ?ks) ?pub) rid] =>
        destruct (room_of_stored_cases env env' ks pub rid room
                    ltac:(eauto with json)) as [->| ->]
    end; [by eexists | done]. }
  destruct Hr1 as [op Hr1].
  destruct (undo_keeps_strokes StringToNumber env' r1 rid uid' user' ts'
              (operations (room_of env r rid)) op Hm1) as (Hs & Ho & _).
  { by rewrite Hr1. }
  rewrite Hs, Ho, Hr1. done.
Qed.

(** For every room: after a clear the log is empty, so an undo that
    follows changes nothing and the strokes stay empty. *)
Lemma clear_then_undo_is_empty (StringToNumber : string -> JsNum)
    env env' r rid uid uid' user user' ts ts' :
  member env r rid uid user ->
  let r1 := (POST StringToNumber env (mkWSMessage rid (Some uid) clear ts) r).2 in
  member env' r1 rid uid' user' ->
  let r2 :=
    (POST StringToNumber env' (mkWSMessage rid (Some uid') undo ts') r1).2 in
  operations (room_of env' r1 rid) = [] ∧ r2 = r1 ∧
  strokes (room_of env' r2 rid) = [].
Proof.
  intros Hm r1 Hm1 r2. subst r2.
  assert (Hr1 : strokes (room_of env' r1 rid) = [] ∧
                operations (room_of env' r1 rid) = []).
  { subst r1. rewrite (POST_member _ _ _ _ _ _ _ _ Hm).
    rewrite switch_clear by apply room_of_JSON. simpl.
    match goal with
    | |- context [room_of env' (mkRedis (<[_ := mkEntry ?room _]> ?ks) ?pub) rid] =>
        destruct (room_of_stored_cases env env' ks pub rid room
                    ltac:(eauto with json)) as [->| ->]
    end; done. }
  destruct Hr1 as [Hs Ho].
  rewrite (POST_member _ _ _ _ _ _ _ _ Hm1).
  rewrite (switch_undo_nothing _ _ _ _ _ _ _ Ho). simpl. done.
Qed.

(** C1. Evaluation at the failing input: in room R1 with nothing drawn, A
    commits s1 and B undoes at once. The undo pops the operation of s1 and
    pushes it on the redo stack, but the canonical strokes still hold s1
    (they were empty before the add), the broadcast carries no stroke
    list, and a client that applied both events still shows s1. *)
Theorem undo_after_add_keeps_stroke :
  let r1 := Scenario.post 2000 "op-1" "A" (stroke_end "s1" Scenario.s1)
              Scenario.fresh in
  let r2 := Scenario.post 2100 "id" "B" undo r1 in
  strokes (Scenario.R1_at 2000 Scenario.fresh) = [] ∧
  strokes (Scenario.R1_at 2100 r1) = [Scenario.s1] ∧
  operations (Scenario.R1_at 2100 r1) = [Scenario.op1] ∧
  operations (Scenario.R1_at 2200 r2) = [] ∧
  redoStack (Scenario.R1_at 2200 r2) = [Scenario.op1] ∧
  strokes (Scenario.R1_at 2200 r2) = [Scenario.s1] ∧
  emitted r1 r2 =
    [("room:R1:messages",
      mkWSMessage "R1" (Some "B") (undone Scenario.op1 None false true) 2100)] ∧
  c_strokes (deliver "B" (published r2) initial_state) = [Scenario.s1].
Proof. vm_compute. repeat split; reflexivity. Qed.

(** C2. Evaluation at the failing input: R1 holds s1 and s2; B clears and
    A undoes at once. The clear leaves the operation log empty (no [clear]
    operation, no snapshot) and broadcasts an empty payload; the undo then
    finds nothing to pop, and the strokes stay empty. *)
Theorem clear_then_undo_restores_nothing :
  let r1 := Scenario.post 3000 "op-3" "B" clear Scenario.drawn in
  let r2 := Scenario.post 3100 "id" "A" undo r1 in
  strokes (Scenario.R1_at 3000 Scenario.drawn) = [Scenario.s1; Scenario.s2] ∧
  strokes (Scenario.R1_at 3100 r1) = [] ∧
  operations (Scenario.R1_at 3100 r1) = [] ∧
  redoStack (Scenario.R1_at 3100 r1) = [] ∧
  emitted Scenario.drawn r1 =
    [("room:R1:messages", mkWSMessage "R1" (Some "B") (cleared None None) 3000)] ∧
  r2 = r1 ∧
  strokes (Scenario.R1_at 3200 r2) = [] ∧
  c_strokes (deliver "A" (published r2)
               (mkCanvasState [Scenario.s1; Scenario.s2] ∅ ∅ ∅ None true None
                  (mkPerformanceMetrics 0 0 2 2) [Scenario.op1; Scenario.op2]
                  (Some true) (Some false))) = [].
Proof. vm_compute. repeat split; reflexivity. Qed.

(* ===================================================================== *)
(** ** The length of the operation log *)
(* ===================================================================== *)

(** A run of commits appends one operation per stroke and drops none. *)
Lemma commit_all_room (StringToNumber : string -> JsNum) env rid uid user ss :
  ∀ r, member env r rid uid user ->
    let room := room_of env r rid in
    let room' := room_of env (commit_all StringToNumber env rid uid ss r) rid in
    strokes room' = strokes room ++ (JSON_stroke <$> ss) ∧
    operations room' =
      operations room ++
        ((fun s => mkOperation (generateId env) stroke_add
                     (Some (JSON_stroke s)) None uid
                     (param_or (Some (user_name user)) "Unknown") (now env))
           <$> ss) ∧
    users room' = users room.
Proof.
  induction ss as [|s ss IH]; intros r Hm; simpl.
  { by rewrite !app_nil_r. }
  rewrite (POST_member _ _ _ _ _ _ _ _ Hm).
  rewrite switch_stroke_end by apply room_of_JSON. simpl.
  match goal with
  | |- context [commit_all _ _ _ _ _ ?r1] =>
      assert (Hm1 : member env r1 rid uid user)
  end.
  { destruct Hm as (? & ? & Hu). repeat split; try done.
    by rewrite room_of_stored_now by eauto with json. }
  destruct (IH _ Hm1) as (Hs & Ho & Hus).
  rewrite Hs, Ho, Hus. rewrite room_of_stored_now by eauto with json. simpl.
  by rewrite <- !app_assoc.
Qed.

(** The strokes of the example are read back as they are. *)
Lemma dots_fixed n : JSON_stroke <$> Scenario.dots n = Scenario.dots n.
Proof.
  apply fmap_fixed. intros s (i & -> & _)%list_elem_of_fmap. reflexivity.
Qed.

(** C5. The operation log has no retention cap: after [n] commits by A in
    the fresh room R1 the log holds the [n] operations, the oldest included;
    at the failing input, 501 commits, its length is 501. *)
Theorem operation_log_is_not_capped :
  (∀ n,
     operations
       (Scenario.R1_at 0
          (commit_all Scenario.no_strings (Scenario.env_at 0 "op") "R1" "A"
             (Scenario.dots n) Scenario.fresh))
     = (fun s => mkOperation "op" stroke_add (Some s) None "A" "Alice" 0)
         <$> Scenario.dots n) ∧
  length
    (operations
       (Scenario.R1_at 0
          (commit_all Scenario.no_strings (Scenario.env_at 0 "op") "R1" "A"
             (Scenario.dots 501) Scenario.fresh))) = 501.
Proof.
  assert (Hm : member (Scenario.env_at 0 "op") Scenario.fresh "R1" "A" Scenario.A).
  { split; [discriminate | split; [discriminate | vm_compute; reflexivity]]. }
  assert (Hall : ∀ n,
     operations
       (Scenario.R1_at 0
          (commit_all Scenario.no_strings (Scenario.env_at 0 "op") "R1" "A"
             (Scenario.dots n) Scenario.fresh))
     = (fun s => mkOperation "op" stroke_add (Some s) None "A" "Alice" 0)
         <$> Scenario.dots n).
  { intros n.
    destruct (commit_all_room Scenario.no_strings _ _ _ _ (Scenario.dots n) _ Hm)
      as (_ & Ho & _).
    unfold Scenario.R1_at.
    rewrite (room_of_now _ (Scenario.env_at 0 "op")) by reflexivity.
    rewrite Ho.
    replace (operations (room_of (Scenario.env_at 0 "op") Scenario.fresh "R1"))
      with (@nil Operation) by (vm_compute; reflexivity).
    simpl. rewrite <- (dots_fixed n) at 2. rewrite <- list_fmap_compose.
    reflexivity. }
  split; [exact Hall|].
  rewrite Hall, length_fmap. unfold Scenario.dots.
  by rewrite length_fmap, length_seq.
Qed.

(* ===================================================================== *)
(** ** A stroke_update for a stroke that is not active *)
(* ===================================================================== *)

(** C6, as stated, fails: in room R1 with nothing drawn and no stroke in
    progress, a [stroke_update] for the id "ghost" leaves the stored room
    alone but is published on the room's channel. *)
Lemma late_stroke_update_is_broadcast :
  let r' := Scenario.post 2000 "id" "A"
              (stroke_update "ghost" (Some [Scenario.pt 1 1]) None)
              Scenario.fresh in
  strokes (Scenario.R1_at 2000 Scenario.fresh) = [] ∧
  activeStrokes initial_state !! "ghost" = None ∧
  keys r' = keys Scenario.fresh ∧
  emitted Scenario.fresh r' =
    [("room:R1:messages",
      mkWSMessage "R1" (Some "A")
        (stroke_updated "ghost" [Scenario.pt 1 1] None) 2000)] ∧
  emitted Scenario.fresh r' ≠ [].
Proof. vm_compute. repeat split; try reflexivity. discriminate. Qed.

(** C6, amended. A [stroke_update] of a member never changes the stored
    room. When its batch is a non-empty array the request is answered 200
    and the server relays the batch, cut to its first 20 points and as its
    JSON text has it, on the room's channel; otherwise the request is
    answered 400 [Invalid points] and nothing is published. A client whose
    active strokes do not hold the stroke id applies what was relayed
    without any change of its state. *)
Theorem late_stroke_update (StringToNumber : string -> JsNum)
    env r rid uid user sid batch ep ts me c :
  member env r rid uid user ->
  activeStrokes c !! sid = None ->
  let res :=
    POST StringToNumber env
      (mkWSMessage rid (Some uid) (stroke_update sid batch ep) ts) r in
  let r' := res.2 in
  res.1 =
    match batch with
    | Some (_ :: _) => JsonResponse true None 200
    | _ => JsonResponse false (Some "Invalid points") 400
    end ∧
  keys r' = keys r ∧
  emitted r r' =
    match batch with
    | Some (p :: ps) =>
        [(room_channel rid,
          mkWSMessage rid (Some uid)
            (stroke_updated sid (JSON_point <$> take 20 (p :: ps))
               (JSON_point <$> ep))
            (now env))]
    | _ => []
    end ∧
  deliver me (emitted r r') c = c.
Proof.
  intros Hm Hc. simpl. rewrite (POST_member _ _ _ _ _ _ _ _ Hm).
  destruct batch as [[|p ps]|]; run_eff;
    rewrite ?emitted_refl, ?emitted_app; repeat split; try reflexivity.
  unfold deliver, handleMessage. simpl. by rewrite Hc.
Qed.

Lemma late_stroke_update_witness :
  (POST Scenario.no_strings (Scenario.env_at 2000 "id")
     (mkWSMessage "R1" (Some "A")
        (stroke_update "s1" (Some [Scenario.pt 1 1]) None) 2000)
     Scenario.drawn).1 = JsonResponse true None 200 ∧
  (POST Scenario.no_strings (Scenario.env_at 2000 "id")
     (mkWSMessage "R1" (Some "A") (stroke_update "s1" (Some []) None) 2000)
     Scenario.drawn).1 = JsonResponse false (Some "Invalid points") 400 ∧
  deliver "B"
    (emitted Scenario.drawn
       (Scenario.post 2000 "id" "A"
          (stroke_update "s1" (Some [Scenario.pt 1 1]) None) Scenario.drawn))
    initial_state = initial_state.
Proof.
  assert (Hm : member (Scenario.env_at 2000 "id") Scenario.drawn "R1" "A"
                 Scenario.A).
  { split; [discriminate | split; [discriminate | vm_compute; reflexivity]]. }
  split; [|split].
  - exact (proj1 (late_stroke_update Scenario.no_strings
             (Scenario.env_at 2000 "id") Scenario.drawn "R1" "A" Scenario.A "s1"
             (Some [Scenario.pt 1 1]) None 2000 "B" initial_state Hm eq_refl)).
  - exact (proj1 (late_stroke_update Scenario.no_strings
             (Scenario.env_at 2000 "id") Scenario.drawn "R1" "A" Scenario.A "s1"
             (Some []) None 2000 "B" initial_state Hm eq_refl)).
  - exact (proj2 (proj2 (proj2 (late_stroke_update Scenario.no_strings
             (Scenario.env_at 2000 "id") Scenario.drawn "R1" "A" Scenario.A "s1"
             (Some [Scenario.pt 1 1]) None 2000 "B" initial_state Hm eq_refl)))).
Defined.

(* ===================================================================== *)
(** ** The last member leaves *)
(* ===================================================================== *)


(** C7, as stated, fails: A is the last member of R1, which holds s1. After
    A's stream is cancelled the member set is empty, yet the key of the room
    is still in Redis with s1 and its operation, and B, joining later, is
    sent them. *)
Lemma last_leave_keeps_room :
  let r' := (cancel (Scenario.env_at 5000 "id") "R1" "A" Scenario.alone).2 in
  users (Scenario.R1_at 5000 Scenario.alone) = {[ "A" := Scenario.A ]} ∧
  users (Scenario.R1_at 5001 r') = ∅ ∧
  cursors (Scenario.R1_at 5001 r') = ∅ ∧
  keys r' !! room_key "R1" ≠ None ∧
  strokes (Scenario.R1_at 5001 r') = [Scenario.s1] ∧
  operations (Scenario.R1_at 5001 r') = [Scenario.op1] ∧
  match (GET (Scenario.env_at 6000 "g")
           (mkQuery (Some "R1") (Some "Bob") (Some "B")) r').1 with
  | StreamResponse [m] =>
      match payload m with
      | sync_state ss _ _ _ ops _ _ =>
          ss = [Scenario.s1] ∧ ops = Some [Scenario.op1]
      | _ => False
      end
  | _ => False
  end.
Proof. vm_compute. repeat split; try reflexivity. discriminate. Qed.

(** C7, amended. When a leave empties the member set, the leaving member
    and its cursor are removed and the room is saved again: its strokes,
    operation log and redo stack are what any handler reads for the next 24
    hours; a handler that runs after those 24 hours finds the key expired,
    hence an empty room. *)
Theorem last_leave_keeps_drawing env env' r rid uid :
  let room := room_of env r rid in
  let r' := (cancel env rid uid r).2 in
  delete uid (users room) = ∅ ->
  ((now env' < now env + DAY_MS)%Z ->
     room_of env' r' rid =
       mkRoomState (strokes room) (operations room) (redoStack room)
                   ∅ (delete uid (cursors room))) ∧
  ((now env + DAY_MS ≤ now env')%Z -> room_of env' r' rid = empty_room).
Proof.
  intros room r' Hlast. subst r' room. rewrite cancel_unfold. simpl.
  split; intros Ht.
  - rewrite room_of_stored by first [exact Ht | eauto with json].
    by rewrite Hlast.
  - by rewrite room_of_expired.
Qed.

Lemma last_leave_keeps_drawing_witness :
  room_of (Scenario.env_at 86000000 "id")
    (cancel (Scenario.env_at 5000 "id") "R1" "A" Scenario.alone).2 "R1"
  = mkRoomState [Scenario.s1] [Scenario.op1] [] ∅ ∅ ∧
  room_of (Scenario.env_at 86405000 "id")
    (cancel (Scenario.env_at 5000 "id") "R1" "A" Scenario.alone).2 "R1"
  = empty_room.
Proof.
  split.
  - refine (proj1 (last_leave_keeps_drawing (Scenario.env_at 5000 "id")
              (Scenario.env_at 86000000 "id") Scenario.alone "R1" "A" _) _).
    + vm_compute. reflexivity.
    + vm_compute. reflexivity.
  - refine (proj2 (last_leave_keeps_drawing (Scenario.env_at 5000 "id")
              (Scenario.env_at 86405000 "id") Scenario.alone "R1" "A" _) _).
    + vm_compute. reflexivity.
    + vm_compute. discriminate.
Defined.

(* ===================================================================== *)
(** ** Joining a room and the limit of 100 users *)
(* ===================================================================== *)

(** C8, as stated, fails: R1 has the two members A and B, far below the
    limit; a join that carries the user id "A" again is accepted and the
    room still has two members. *)
Lemma rejoin_adds_no_member :
  let res := GET (Scenario.env_at 4000 "g")
               (mkQuery (Some "R1") (Some "Alice") (Some "A")) Scenario.fresh in
  size (users (Scenario.R1_at 4000 Scenario.fresh)) = 2 ∧
  2 < MAX_USERS ∧
  match res.1 with StreamResponse [_] => True | _ => False end ∧
  size (users (Scenario.R1_at 4000 res.2)) = 2.
Proof.
  intros res. split; [vm_compute; reflexivity|].
  split; [unfold MAX_USERS; lia|].
  split; [vm_compute; exact I | vm_compute; reflexivity].
Qed.

(** C8, amended. A join that finds 100 users or more in the room is
    answered "Room is full" (503) and leaves Redis as it was: no user entry,
    no cursor entry, nothing published. A join that finds fewer is accepted
    and stores exactly one user entry, under the user id of the request: the
    number of users grows by one when that id was not in the room, and stays
    the same when it was (the entry is replaced); the cursors are
    untouched. *)
Theorem join_capacity env q r :
  let rid := request_room (Join q) in
  let uid := param_or (q_userId q) (generateId env) in
  let room := room_of env r rid in
  let resp := (GET env q r).1 in
  let r' := (GET env q r).2 in
  let room' := room_of env r' rid in
  (MAX_USERS ≤ size (users room) ->
     resp = TextResponse "Room is full" 503 ∧ r' = r) ∧
  (size (users room) < MAX_USERS ->
     (∃ first, resp = StreamResponse [first]) ∧
     (∃ user, user_id user = uid ∧ users room' = <[uid := user]> (users room)) ∧
     cursors room' = cursors room ∧
     size (users room') =
       if decide (is_Some (users room !! uid)) then size (users room)
       else S (size (users room))).
Proof.
  intros rid uid room resp r' room'. subst resp r' room' room rid uid.
  rewrite GET_unfold. simpl.
  pose proof (room_of_JSON env r (param_or (q_roomId q) "default")) as Hn.
  revert Hn.
  generalize (room_of env r (param_or (q_roomId q) "default")). intros room Hn.
  generalize (param_or (q_userId q) (generateId env)). intros uid.
  split; intros Hsize.
  - by rewrite bool_decide_eq_true_2.
  - rewrite bool_decide_eq_false_2 by lia. simpl.
    rewrite room_of_stored_now by eauto with json. simpl.
    split; [by eexists|].
    split; [eexists (mkUser uid _ _ _ _); split; reflexivity|].
    split; [reflexivity|].
    destruct (decide (is_Some (users room !! uid))) as [[u Hu]|Hnone].
    + rewrite <- (insert_delete_id (users room) uid u Hu) at 2.
      rewrite <- insert_delete_eq.
      rewrite !map_size_insert_None by apply lookup_delete_eq. reflexivity.
    + apply map_size_insert_None. by apply eq_None_not_Some.
Qed.

Lemma join_capacity_witness :
  (GET (Scenario.env_at 4000 "g") (mkQuery (Some "R1") (Some "Carol") (Some "C"))
     Scenario.full
   = (TextResponse "Room is full" 503, Scenario.full)) ∧
  size (users (room_of (Scenario.env_at 4000 "g")
                 (GET (Scenario.env_at 4000 "g")
                    (mkQuery (Some "R1") (Some "Carol") (Some "C"))
                    Scenario.fresh).2 "R1")) = 3.
Proof.
  split.
  - destruct (proj1 (join_capacity (Scenario.env_at 4000 "g")
                       (mkQuery (Some "R1") (Some "Carol") (Some "C"))
                       Scenario.full)) as [H1 H2].
    + vm_compute. apply le_n.
    + apply injective_projections; [exact H1 | exact H2].
  - destruct (proj2 (join_capacity (Scenario.env_at 4000 "g")
                       (mkQuery (Some "R1") (Some "Carol") (Some "C"))
                       Scenario.fresh)) as (_ & _ & _ & Hs).
    + apply Nat.ltb_lt. vm_compute. reflexivity.
    + exact Hs.
Defined.

(* ===================================================================== *)
(** ** stroke_start: the width and the point *)
(* ===================================================================== *)

Lemma one_le_hundred : (Qc_of_Z 1 ≤ Qc_of_Z 100)%Qc.
Proof. by vm_compute. Qed.

(** [Math.max(1, Math.min(100, n))] is the clamp of [n], for every number
    but NaN. *)
Lemma max_min_clamp (n : JsNum) :
  n ≠ NaN ->
  Math_max (num_of_Z 1) (Math_min (num_of_Z 100) n) = clamp_1_100 n ∧
  in_1_100 (clamp_1_100 n).
Proof.
  intros Hn. pose proof one_le_hundred as H1.
  destruct n as [| | |q]; [done| | |].
  - unfold Math_max, Math_min, clamp_1_100. simpl.
    split; [reflexivity|]. split; [exact H1 | apply Qcle_refl].
  - unfold Math_max, Math_min, clamp_1_100. simpl.
    split; [reflexivity|]. split; [apply Qcle_refl | exact H1].
  - unfold Math_max, Math_min, clamp_1_100, num_of_Z. simpl.
    destruct (decide (q ≤ Qc_of_Z 1)%Qc) as [Hq1|Hq1];
      destruct (decide (Qc_of_Z 100 ≤ q)%Qc) as [Hq100|Hq100];
      rewrite ?(bool_decide_eq_true_2 _ Hq1), ?(bool_decide_eq_false_2 _ Hq1),
        ?(bool_decide_eq_true_2 _ Hq100), ?(bool_decide_eq_false_2 _ Hq100);
      simpl.
    + rewrite ?bool_decide_eq_true_2 by exact H1.
      assert (Qc_of_Z 100 ≤ Qc_of_Z 1)%Qc as Hbad by (by etrans).
      by vm_compute in Hbad.
    + destruct (decide (Qc_of_Z 1 ≤ q)%Qc) as [Hq|Hq].
      * rewrite (bool_decide_eq_true_2 _ Hq).
        assert (q = Qc_of_Z 1) as -> by (by apply Qcle_antisym).
        split; [reflexivity|]. split; [apply Qcle_refl | exact H1].
      * rewrite (bool_decide_eq_false_2 _ Hq).
        split; [reflexivity|]. split; [apply Qcle_refl | exact H1].
    + rewrite ?bool_decide_eq_true_2 by exact H1.
      split; [reflexivity|]. split; [exact H1 | apply Qcle_refl].
    + apply Qcnot_le_lt, Qclt_le_weak in Hq1, Hq100.
      rewrite (bool_decide_eq_true_2 _ Hq1).
      split; [reflexivity|]. by split.
Qed.

(** The width of a [stroke_start] that carries none is 4; a numeric width
    other than 0 and NaN is clamped to [1,100]. *)
Lemma validWidth_clamps (StringToNumber : string -> JsNum) :
  validWidth StringToNumber JsUndefined = num_of_Z 4 ∧
  ∀ n, ToBoolean (JsNumber n) = true ->
    validWidth StringToNumber (JsNumber n) = clamp_1_100 n ∧
    in_1_100 (validWidth StringToNumber (JsNumber n)).
Proof.
  split; [reflexivity|].
  intros n Htrue. unfold validWidth, Js.or. rewrite Htrue. simpl.
  assert (n ≠ NaN) as Hn by (by intros ->).
  destruct (max_min_clamp n Hn) as [Heq Hin]. by rewrite Heq.
Qed.

(** The [stroke_start] case has no rejection: whatever the fields of the
    payload, the answer to a member is a success, the stored room is
    untouched and one stroke is published, as its JSON text has it. *)
Lemma stroke_start_relayed (StringToNumber : string -> JsNum)
    env r rid uid user sid pt col w tl ts :
  member env r rid uid user ->
  let res := POST StringToNumber env
               (mkWSMessage rid (Some uid) (stroke_start sid pt col w tl) ts) r in
  res.1 = JsonResponse true None 200 ∧
  keys res.2 = keys r ∧
  emitted r res.2 =
    [(room_channel rid,
      mkWSMessage rid (Some uid)
        (stroke_started
           (mkStroke sid uid [JSON_point pt] col
              (JSON_value (JsNumber (validWidth StringToNumber w))) tl (now env)
              (Some (JSON_point pt)) None None))
        (now env))].
Proof.
  intros Hm. simpl. rewrite (POST_member _ _ _ _ _ _ _ _ Hm).
  run_eff. rewrite emitted_app. repeat split; reflexivity.
Qed.

(** C9. The [stroke_start] case validates nothing. Every [stroke_start] with
    a payload that A posts in room R1 is answered 200, whatever its point
    and its width, and its stroke is published with the width
    [Math.max(1, Math.min(100, width || 4))], written as JSON. At the failing
    inputs: a point whose x is infinite is relayed with x [null]; the width
    "wide", which is no number, is relayed as [null]; the width [true] is
    relayed as 1; and the numeric width 0, which is below 1, is relayed as
    4, where the clamp of 0 to [1,100] is 1. Only a [stroke_start] without
    any payload is turned away, by the [catch] of the handler: 500, Redis
    untouched. *)
Theorem stroke_start_is_not_validated :
  (∀ (StringToNumber : string -> JsNum) sid pt col w tl,
     let res := POST StringToNumber (Scenario.env_at 2000 "id")
                  (mkWSMessage "R1" (Some "A") (stroke_start sid pt col w tl) 2000)
                  Scenario.fresh in
     res.1 = JsonResponse true None 200 ∧
     keys res.2 = keys Scenario.fresh ∧
     emitted Scenario.fresh res.2 =
       [("room:R1:messages",
         mkWSMessage "R1" (Some "A")
           (stroke_started
              (mkStroke sid "A" [JSON_point pt] col
                 (JSON_value (JsNumber (validWidth StringToNumber w))) tl 2000
                 (Some (JSON_point pt)) None None))
           2000)]) ∧
  (∀ (StringToNumber : string -> JsNum),
     POST StringToNumber (Scenario.env_at 2000 "id")
       (mkWSMessage "R1" (Some "A") (no_payload d_stroke_start) 2000)
       Scenario.fresh
     = (JsonResponse false (Some "Internal server error") 500,
        Scenario.fresh)) ∧
  JSON_point (mkPoint (JsNumber PosInfinity) (JsNumber (num_of_Z 0)) None)
    = mkPoint JsNull (JsNumber (num_of_Z 0)) None ∧
  JSON_value (JsNumber (validWidth Scenario.no_strings (JsString "wide")))
    = JsNull ∧
  JSON_value (JsNumber (validWidth Scenario.no_strings (JsBool true)))
    = JsNumber (num_of_Z 1) ∧
  JSON_value (JsNumber (validWidth Scenario.no_strings (JsNumber (num_of_Z 0))))
    = JsNumber (num_of_Z 4) ∧
  clamp_1_100 (num_of_Z 0) = num_of_Z 1 ∧
  num_of_Z 4 ≠ num_of_Z 1.
Proof.
  split.
  - intros StringToNumber sid pt col w tl.
    apply (stroke_start_relayed StringToNumber (Scenario.env_at 2000 "id")
             Scenario.fresh "R1" "A" Scenario.A).
    split; [discriminate | split; [discriminate | vm_compute; reflexivity]].
  - split.
    + intros StringToNumber.
      rewrite (POST_member StringToNumber (Scenario.env_at 2000 "id")
                 Scenario.fresh "R1" "A" Scenario.A); [reflexivity|].
      split; [discriminate | split; [discriminate | vm_compute; reflexivity]].
    + vm_compute. repeat split; try reflexivity; discriminate.
Qed.

(* ===================================================================== *)
(** ** What a request may write and publish *)
(* ===================================================================== *)

Lemma room_key_inj rid rid' : room_key rid = room_key rid' -> rid = rid'.
Proof. unfold room_key. intros H. by simplify_eq/=. Qed.

(** What the switch leaves in Redis: the keys as they were, or the loaded
    room rewritten in one of the four ways; whatever it publishes goes to
    the channel of the room, in the name of the sender. *)
Lemma switch_saved (StringToNumber : string -> JsNum) env r rid uid user room p :
  let r' := (switch StringToNumber env rid uid user room p r).2 in
  (keys r' = keys r ∨
   ∃ room', saved_by_post room room' ∧
     keys r' = <[room_key rid := mkEntry (JSON_room room')
                                   (now env + TTL_SECONDS * 1000)]> (keys r)) ∧
  ∀ e, e ∈ emitted r r' ->
    e.1 = room_channel rid ∧ roomId e.2 = rid ∧ userId e.2 = Some uid ∧
    timestamp e.2 = now env.
Proof.
  destruct p as [? ? ? ? ?|? pts ?|sid stroke|cx cy ?| | | |?|?|?]; simpl.
  - run_eff. rewrite emitted_app. split; [by left|].
    by intros e ->%list_elem_of_singleton.
  - destruct pts as [[|pt pts]|]; run_eff;
      rewrite ?emitted_app, ?emitted_refl; (split; [by left|]);
      try (by intros e []%elem_of_nil).
    by intros e ->%list_elem_of_singleton.
  - run_eff. rewrite emitted_app. split.
    + right. eexists. split; [|reflexivity]. by eapply saved_stroke_end.
    + by intros e ->%list_elem_of_singleton.
  - destruct cx, cy; run_eff; rewrite ?emitted_app, ?emitted_refl;
      (split; [by left|]); try (by intros e []%elem_of_nil).
    by intros e ->%list_elem_of_singleton.
  - destruct (pop (operations room)) as [[ops op]|] eqn:Hpop; run_eff.
    + apply pop_Some in Hpop. rewrite emitted_app. split.
      * right. eexists. split; [|reflexivity]. by apply saved_undo.
      * by intros e ->%list_elem_of_singleton.
    + rewrite emitted_refl. split; [by left|]. by intros e []%elem_of_nil.
  - destruct (pop (redoStack room)) as [[rs op]|] eqn:Hpop; run_eff.
    + apply pop_Some in Hpop. rewrite emitted_app. split.
      * right. eexists. split; [|reflexivity]. by apply saved_redo.
      * by intros e ->%list_elem_of_singleton.
    + rewrite emitted_refl. split; [by left|]. by intros e []%elem_of_nil.
  - run_eff. rewrite emitted_app. split.
    + right. eexists. split; [|reflexivity]. apply saved_clear.
    + by intros e ->%list_elem_of_singleton.
  - run_eff. rewrite emitted_app. split; [by left|].
    by intros e ->%list_elem_of_singleton.
  - rewrite emitted_refl. split; [by left|]. by intros e []%elem_of_nil.
  - rewrite emitted_refl. split; [by left|]. by intros e []%elem_of_nil.
Qed.

(** The same for a whole POST, guards included. *)
Lemma POST_saved (StringToNumber : string -> JsNum) env message r :
  let rid := roomId message in
  let r' := (POST StringToNumber env message r).2 in
  (keys r' = keys r ∨
   ∃ room', saved_by_post (room_of env r rid) room' ∧
     keys r' = <[room_key rid := mkEntry (JSON_room room')
                                   (now env + TTL_SECONDS * 1000)]> (keys r)) ∧
  ∀ e, e ∈ emitted r r' ->
    e.1 = room_channel rid ∧ roomId e.2 = rid ∧ userId e.2 = userId message ∧
    timestamp e.2 = now env.
Proof.
  destruct message as [rid ouid p ts]. simpl.
  destruct (POST_guards StringToNumber env rid ouid p ts r)
    as [(resp & _ & ->)|(uid & user & -> & Hm)].
  - simpl. rewrite emitted_refl. split; [by left|]. by intros e []%elem_of_nil.
  - rewrite (POST_member _ _ _ _ _ _ _ _ Hm). apply switch_saved.
Qed.

(** X1. A POST is turned away without any effect on Redis when an id is
    missing (400) and when the sender is not a user of the room (401). *)
Theorem POST_rejects (StringToNumber : string -> JsNum) env rid ouid p ts r :
  match ouid with
  | None => True
  | Some uid =>
      rid = EmptyString ∨ uid = EmptyString ∨
      users (room_of env r rid) !! uid = None
  end ->
  POST StringToNumber env (mkWSMessage rid ouid p ts) r =
    (match ouid with
     | None => JsonResponse false (Some "Missing required fields") 400
     | Some uid =>
         if bool_decide (rid = EmptyString ∨ uid = EmptyString)
         then JsonResponse false (Some "Missing required fields") 400
         else JsonResponse false (Some "User not found in room") 401
     end, r).
Proof.
  destruct ouid as [uid|]; [|done]. intros Hbad. unfold POST. simpl.
  destruct (decide (rid = EmptyString)) as [->|Hrid].
  { by rewrite bool_decide_eq_true_2 by by left. }
  destruct (decide (uid = EmptyString)) as [->|Huid].
  { rewrite bool_decide_eq_true_2 by by right. simpl.
    by rewrite orb_true_r. }
  rewrite bool_decide_eq_false_2 by (by intros [?|?]).
  destruct Hbad as [?|[?|Hu]]; [done|done|].
  apply String.eqb_neq in Hrid, Huid. rewrite Hrid, Huid. simpl.
  unfold mbind at 1, Eff_bind at 1. rewrite getRoom_room_of. by rewrite Hu.
Qed.

Lemma POST_rejects_witness :
  POST Scenario.no_strings (Scenario.env_at 3000 "id")
    (mkWSMessage "R1" (Some "Mallory") clear 3000) Scenario.drawn
  = (JsonResponse false (Some "User not found in room") 401, Scenario.drawn).
Proof.
  refine (POST_rejects Scenario.no_strings (Scenario.env_at 3000 "id") "R1"
            (Some "Mallory") clear 3000 Scenario.drawn _).
  right. right. vm_compute. reflexivity.
Defined.

(** X2. No POST changes the users or the cursors of the stored room. A
    [cursor_move] of a member with two numbers, in particular, is answered
    200 and published to the room with the sender's colour and name (an
    infinite coordinate as [null]), but nothing is written to Redis: the
    cursor is set on the room that the handler loaded and that room is not
    saved. *)
Theorem POST_keeps_users_and_cursors
    (StringToNumber : string -> JsNum) env message r :
  let rid := roomId message in
  let res := POST StringToNumber env message r in
  let r' := res.2 in
  users (room_of env r' rid) = users (room_of env r rid) ∧
  cursors (room_of env r' rid) = cursors (room_of env r rid) ∧
  ∀ uid user x y d,
    userId message = Some uid ->
    member env r rid uid user ->
    payload message = cursor_move (JsNumber x) (JsNumber y) d ->
    res.1 = JsonResponse true None 200 ∧
    keys r' = keys r ∧
    emitted r r' =
      [(room_channel rid,
        mkWSMessage rid (Some uid)
          (cursor_moved uid (JSON_value (JsNumber x)) (JSON_value (JsNumber y))
             d (user_color user) (user_name user))
          (now env))].
Proof.
  intros rid res r'.
  assert (Hroom : users (room_of env r' rid) = users (room_of env r rid) ∧
                  cursors (room_of env r' rid) = cursors (room_of env r rid)).
  { destruct (POST_saved StringToNumber env message r)
      as [[Hk|(room' & Hstep & Hk)] _]; fold rid res r' in Hk.
    - by rewrite (room_of_keys env r r' rid Hk).
    - destruct r' as [ks pub]. simpl in Hk. subst ks.
      destruct (JSON_room_fixed _ (room_of_JSON env r rid)) as (_ & _ & _ & Hc).
      rewrite room_of_stored_now by apply JSON_room_idemp.
      destruct Hstep; simpl; by rewrite ?Hc. }
  destruct Hroom as [Hu Hc]. do 2 (split; [done|]).
  intros uid user cx cy d Huid Hm Hp. subst rid res r'.
  destruct message as [rid ouid p ts]. simpl in *. subst ouid p.
  rewrite (POST_member _ _ _ _ _ _ _ _ Hm). run_eff.
  rewrite emitted_app. repeat split; reflexivity.
Qed.

Lemma POST_keeps_users_and_cursors_witness :
  (POST Scenario.no_strings (Scenario.env_at 2000 "id")
     (mkWSMessage "R1" (Some "A")
        (cursor_move (JsNumber (num_of_Z 9)) (JsNumber PosInfinity) true) 2000)
     Scenario.fresh).1 = JsonResponse true None 200 ∧
  keys (POST Scenario.no_strings (Scenario.env_at 2000 "id")
          (mkWSMessage "R1" (Some "A")
             (cursor_move (JsNumber (num_of_Z 9)) (JsNumber PosInfinity) true)
             2000)
          Scenario.fresh).2 = keys Scenario.fresh ∧
  emitted Scenario.fresh
    (POST Scenario.no_strings (Scenario.env_at 2000 "id")
       (mkWSMessage "R1" (Some "A")
          (cursor_move (JsNumber (num_of_Z 9)) (JsNumber PosInfinity) true) 2000)
       Scenario.fresh).2
  = [("room:R1:messages",
      mkWSMessage "R1" (Some "A")
        (cursor_moved "A" (JsNumber (num_of_Z 9)) JsNull true "#FF6B6B" "Alice")
        2000)].
Proof.
  refine (proj2 (proj2 (POST_keeps_users_and_cursors Scenario.no_strings
            (Scenario.env_at 2000 "id")
            (mkWSMessage "R1" (Some "A")
               (cursor_move (JsNumber (num_of_Z 9)) (JsNumber PosInfinity) true)
               2000)
            Scenario.fresh))
            "A" Scenario.A (num_of_Z 9) PosInfinity true eq_refl _ eq_refl).
  split; [discriminate | split; [discriminate | vm_compute; reflexivity]].
Defined.

(** A read depends on the entry of the room's key only. *)
Lemma room_of_lookup env r r' rid :
  keys r' !! room_key rid = keys r !! room_key rid ->
  room_of env r' rid = room_of env r rid.
Proof.
  intros Hk. unfold room_of, getRoom, mbind, Eff_bind, redis_get.
  rewrite Hk.
  destruct (keys r !! room_key rid) as [e|]; [|reflexivity].
  destruct (now env <? expires_at e)%Z; reflexivity.
Qed.

(** What a request may write: nothing, or the key of its own room. *)
Lemma serve_keys (StringToNumber : string -> JsNum) env req r :
  let r' := (serve StringToNumber env req r).2 in
  keys r' = keys r ∨
  ∃ e, keys r' = <[room_key (request_room req) := e]> (keys r).
Proof.
  destruct req as [q|message|rid uid]; simpl.
  - rewrite GET_unfold. simpl. destruct (bool_decide _); simpl;
      [by left | right; by eexists].
  - destruct (POST_saved StringToNumber env message r)
      as [[Hk|(room' & _ & Hk)] _]; [by left | right; by eexists].
  - unfold mbind, Eff_bind. rewrite cancel_unfold. simpl. right. by eexists.
Qed.

(** X3. Rooms are independent in the store: a request for one room leaves
    every other room as it was, at whatever instant it is read. *)
Theorem other_rooms_untouched
    (StringToNumber : string -> JsNum) env env' req r rid' :
  rid' ≠ request_room req ->
  room_of env' (serve StringToNumber env req r).2 rid' = room_of env' r rid'.
Proof.
  intros Hne. apply room_of_lookup.
  destruct (serve_keys StringToNumber env req r) as [->|[e ->]]; [done|].
  rewrite lookup_insert_ne; [done|].
  intros Heq%room_key_inj. by symmetry in Heq.
Qed.

Lemma other_rooms_untouched_witness :
  room_of (Scenario.env_at 4000 "id")
    (serve Scenario.no_strings (Scenario.env_at 3000 "id")
       (Post (mkWSMessage "R2" (Some "A") clear 3000)) Scenario.drawn) .2 "R1"
  = room_of (Scenario.env_at 4000 "id") Scenario.drawn "R1".
Proof.
  refine (other_rooms_untouched Scenario.no_strings (Scenario.env_at 3000 "id")
            (Scenario.env_at 4000 "id")
            (Post (mkWSMessage "R2" (Some "A") clear 3000)) Scenario.drawn "R1" _).
  discriminate.
Defined.

(** X4. Whatever a request publishes goes to the channel of its own room
    and names that room, at the instant of the request. *)
Theorem publications_stay_in_room
    (StringToNumber : string -> JsNum) env req r e :
  e ∈ emitted r (serve StringToNumber env req r).2 ->
  e.1 = room_channel (request_room req) ∧
  roomId e.2 = request_room req ∧
  timestamp e.2 = now env.
Proof.
  destruct req as [q|message|rid uid]; simpl.
  - rewrite GET_unfold. simpl. destruct (bool_decide _); simpl.
    + rewrite emitted_refl. by intros []%elem_of_nil.
    + rewrite emitted_app. by intros ->%list_elem_of_singleton.
  - intros He.
    destruct (POST_saved StringToNumber env message r) as [_ Hpub].
    by destruct (Hpub e He) as (? & ? & _ & ?).
  - unfold mbind, Eff_bind. rewrite cancel_unfold. simpl.
    rewrite emitted_app. by intros ->%list_elem_of_singleton.
Qed.

Lemma publications_stay_in_room_witness :
  ("room:R1:messages",
   mkWSMessage "R1" (Some "A") (cleared None None) 3000).1
    = room_channel "R1" ∧
  roomId ("room:R1:messages",
          mkWSMessage "R1" (Some "A") (cleared None None) 3000).2 = "R1" ∧
  timestamp ("room:R1:messages",
             mkWSMessage "R1" (Some "A") (cleared None None) 3000).2 = 3000%Z.
Proof.
  refine (publications_stay_in_room Scenario.no_strings
            (Scenario.env_at 3000 "id")
            (Post (mkWSMessage "R1" (Some "A") clear 3000)) Scenario.drawn
            ("room:R1:messages",
             mkWSMessage "R1" (Some "A") (cleared None None) 3000) _).
  vm_compute. apply list_elem_of_here.
Defined.

(* ===================================================================== *)
(** ** Undo and redo undo each other *)
(* ===================================================================== *)

(** A member of the room as it is read after a save reads the saved
    room. *)
Lemma member_reads_saved env env' ks pub rid uid user room :
  JSON_room room = room ->
  member env' (mkRedis (<[room_key rid := mkEntry room (now env + TTL_SECONDS * 1000)]> ks) pub)
         rid uid user ->
  room_of env' (mkRedis (<[room_key rid := mkEntry room (now env + TTL_SECONDS * 1000)]> ks) pub) rid
  = room.
Proof.
  intros Hn (_ & _ & Hu).
  destruct (room_of_stored_cases env env' ks pub rid room Hn) as [Heq|Heq];
    [done|]. by rewrite Heq in Hu.
Qed.

(** X5. An undo that finds an operation, followed by a redo, gives back
    the room exactly as it was stored before the undo: strokes, operation
    log, redo stack, users and cursors. *)
Theorem undo_then_redo (StringToNumber : string -> JsNum)
    env env' r rid uid uid' user user' ts ts' :
  member env r rid uid user ->
  operations (room_of env r rid) ≠ [] ->
  let r1 := (POST StringToNumber env (mkWSMessage rid (Some uid) undo ts) r).2 in
  member env' r1 rid uid' user' ->
  let r2 := (POST StringToNumber env' (mkWSMessage rid (Some uid') redo ts') r1).2 in
  room_of env' r2 rid = room_of env r rid.
Proof.
  intros Hm Hops r1 Hm1 r2. subst r2.
  pose proof (room_of_JSON env r rid) as Hn.
  destruct (room_of env r rid) as [ss ops rs us cs] eqn:Hroom. simpl in Hops.
  destruct ops as [|op ops _] using rev_ind; [done|].
  pose proof (fixed_undo _ ops op Hn eq_refl) as Hn1. simpl in Hn1.
  revert Hm1. subst r1.
  rewrite (POST_member _ _ _ _ _ _ _ _ Hm), Hroom.
  rewrite (switch_undo _ _ _ _ _ _ _ ops op Hn) by reflexivity. simpl.
  intros Hm1. rewrite (POST_member _ _ _ _ _ _ _ _ Hm1).
  rewrite (member_reads_saved _ _ _ _ _ _ _ _ Hn1 Hm1).
  rewrite (switch_redo _ _ _ _ _ _ _ rs op Hn1) by reflexivity. simpl.
  by rewrite room_of_stored_now by exact Hn.
Qed.

Lemma undo_then_redo_witness :
  room_of (Scenario.env_at 3100 "id")
    (Scenario.post 3100 "id" "B" redo
       (Scenario.post 3000 "id" "A" undo Scenario.drawn)) "R1"
  = room_of (Scenario.env_at 3000 "id") Scenario.drawn "R1".
Proof.
  refine (undo_then_redo Scenario.no_strings (Scenario.env_at 3000 "id")
            (Scenario.env_at 3100 "id") Scenario.drawn "R1" "A" "B"
            Scenario.A Scenario.B 3000 3100 _ _ _).
  - split; [discriminate | split; [discriminate | vm_compute; reflexivity]].
  - vm_compute. discriminate.
  - split; [discriminate | split; [discriminate | vm_compute; reflexivity]].
Defined.

(** X6. A redo that finds an operation, followed by an undo, gives back
    the room exactly as it was stored before the redo. *)
Theorem redo_then_undo (StringToNumber : string -> JsNum)
    env env' r rid uid uid' user user' ts ts' :
  member env r rid uid user ->
  redoStack (room_of env r rid) ≠ [] ->
  let r1 := (POST StringToNumber env (mkWSMessage rid (Some uid) redo ts) r).2 in
  member env' r1 rid uid' user' ->
  let r2 := (POST StringToNumber env' (mkWSMessage rid (Some uid') undo ts') r1).2 in
  room_of env' r2 rid = room_of env r rid.
Proof.
  intros Hm Hrs r1 Hm1 r2. subst r2.
  pose proof (room_of_JSON env r rid) as Hn.
  destruct (room_of env r rid) as [ss ops rs us cs] eqn:Hroom. simpl in Hrs.
  destruct rs as [|op rs _] using rev_ind; [done|].
  pose proof (fixed_redo _ rs op Hn eq_refl) as Hn1. simpl in Hn1.
  revert Hm1. subst r1.
  rewrite (POST_member _ _ _ _ _ _ _ _ Hm), Hroom.
  rewrite (switch_redo _ _ _ _ _ _ _ rs op Hn) by reflexivity. simpl.
  intros Hm1. rewrite (POST_member _ _ _ _ _ _ _ _ Hm1).
  rewrite (member_reads_saved _ _ _ _ _ _ _ _ Hn1 Hm1).
  rewrite (switch_undo _ _ _ _ _ _ _ ops op Hn1) by reflexivity. simpl.
  by rewrite room_of_stored_now by exact Hn.
Qed.

Lemma redo_then_undo_witness :
  room_of (Scenario.env_at 3100 "id")
    (Scenario.post 3100 "id" "B" undo
       (Scenario.post 3000 "id" "A" redo Scenario.after_undo)) "R1"
  = room_of (Scenario.env_at 3000 "id") Scenario.after_undo "R1".
Proof.
  refine (redo_then_undo Scenario.no_strings (Scenario.env_at 3000 "id")
            (Scenario.env_at 3100 "id") Scenario.after_undo "R1" "A" "B"
            Scenario.A Scenario.B 3000 3100 _ _ _).
  - split; [discriminate | split; [discriminate | vm_compute; reflexivity]].
  - vm_compute. discriminate.
  - split; [discriminate | split; [discriminate | vm_compute; reflexivity]].
Defined.

(* ===================================================================== *)
(** ** The operations the store can hold *)
(* ===================================================================== *)

Lemma empty_room_wf : room_wf empty_room.
Proof. intros op Hop. by apply elem_of_nil in Hop. Qed.

Lemma saved_by_post_wf room room' :
  saved_by_post room room' -> room_wf room -> room_wf room'.
Proof.
  intros Hstep Hwf. destruct Hstep as [stroke op Ht Hs|ops op Hops|rs op Hrs|];
    intros op' Hin; simpl in *.
  - rewrite app_nil_r in Hin. apply elem_of_app in Hin as [Hin|Hin].
    + destruct (Hwf op') as (? & Hlive); [apply elem_of_app; by left|].
      split; [done|]. intros s Hs'. apply elem_of_app. left. by apply Hlive.
    + apply list_elem_of_singleton in Hin as ->.
      split; [done|]. intros s Hs'. rewrite Hs in Hs'. injection Hs' as <-.
      apply elem_of_app. right. apply list_elem_of_here.
  - apply (Hwf op'). rewrite Hops.
    rewrite !elem_of_app in Hin. rewrite !elem_of_app. tauto.
  - apply (Hwf op'). rewrite Hrs.
    rewrite !elem_of_app in Hin. rewrite !elem_of_app. tauto.
  - by apply elem_of_nil in Hin.
Qed.

(** Reading a room back from its text keeps it well formed. *)
Lemma room_wf_JSON room : room_wf room -> room_wf (JSON_room room).
Proof.
  intros Hwf op' Hin. unfold JSON_room in Hin. simpl in Hin.
  rewrite <- fmap_app in Hin.
  apply list_elem_of_fmap in Hin as (op & -> & Hin).
  destruct (Hwf op Hin) as [Ht Hlive]. split; [done|].
  intros s' Hs'. simpl in *.
  destruct (op_stroke op) as [s|]; [|done]. injection Hs' as <-.
  apply list_elem_of_fmap. exists s. split; [done|]. by apply Hlive.
Qed.

(** Whatever a handler loads from a well-formed store is well formed. *)
Lemma room_of_wf env r rid : store_wf r -> room_wf (room_of env r rid).
Proof.
  intros Hwf. unfold room_of, getRoom, mbind, Eff_bind, redis_get.
  destruct (keys r !! room_key rid) as [e|] eqn:He; [|apply empty_room_wf].
  destruct (now env <? expires_at e)%Z; [|apply empty_room_wf].
  simpl. apply room_wf_JSON. by eapply Hwf.
Qed.

Lemma store_wf_insert r key room exp pub :
  store_wf r -> room_wf room ->
  store_wf (mkRedis (<[key := mkEntry room exp]> (keys r)) pub).
Proof.
  intros Hwf Hroom key' e. simpl.
  rewrite lookup_insert. case_decide; [by intros [= <-]|]. apply Hwf.
Qed.

Lemma store_wf_keys r r' : keys r' = keys r -> store_wf r -> store_wf r'.
Proof. intros Hk Hwf key e. rewrite Hk. apply Hwf. Qed.

(** Every request keeps the store well formed. *)
Lemma serve_wf (StringToNumber : string -> JsNum) env req r :
  store_wf r -> store_wf (serve StringToNumber env req r).2.
Proof.
  intros Hwf. destruct req as [q|message|rid uid]; simpl.
  - rewrite GET_unfold. simpl. destruct (bool_decide _); simpl; [done|].
    apply store_wf_insert; [done|].
    by apply (room_of_wf env r (param_or (q_roomId q) "default")).
  - destruct (POST_saved StringToNumber env message r)
      as [[Hk|(room' & Hstep & Hk)] _].
    + by eapply store_wf_keys.
    + destruct (POST StringToNumber env message r).2 as [ks pub].
      simpl in Hk. subst ks. apply store_wf_insert; [done|].
      apply room_wf_JSON. eapply saved_by_post_wf; [done|]. by apply room_of_wf.
  - unfold mbind, Eff_bind. rewrite cancel_unfold. simpl.
    apply store_wf_insert; [done|]. by apply (room_of_wf env r rid).
Qed.

(** X7. Starting from an empty Redis, whatever the joins, posts and leaves
    and whenever they come, every operation held in a stored room, in its
    log or on its redo stack, is a [stroke_add], and the stroke that it
    carries is still among the strokes of that room: no [clear] and no
    [stroke_remove] operation is ever stored, and no stroke leaves the room
    while an operation that carries it is kept. *)
Theorem stored_operations_are_live_stroke_adds
    (StringToNumber : string -> JsNum) reqs env rid op :
  let room := room_of env (serve_all StringToNumber reqs no_redis) rid in
  op ∈ operations room ++ redoStack room ->
  op_type op = stroke_add ∧
  ∀ stroke, op_stroke op = Some stroke -> stroke ∈ strokes room.
Proof.
  intros room. apply (room_of_wf env _ rid). clear.
  assert (Hgen : ∀ r, store_wf r -> store_wf (serve_all StringToNumber reqs r)).
  { induction reqs as [|[env req] reqs IH]; intros r Hwf; simpl; [done|].
    apply IH. by apply serve_wf. }
  apply Hgen. intros key e Hk. simpl in Hk. by rewrite lookup_empty in Hk.
Qed.

Lemma stored_operations_are_live_stroke_adds_witness :
  op_type Scenario.op1 = stroke_add ∧
  Scenario.s1 ∈ strokes
      (room_of (Scenario.env_at 2300 "id")
         (serve_all Scenario.no_strings
            [(Scenario.env_at 1000 "id",
              Join (mkQuery (Some "R1") (Some "Alice") (Some "A")));
             (Scenario.env_at 2000 "op-1",
              Post (mkWSMessage "R1" (Some "A")
                      (stroke_end "s1" Scenario.s1) 2000));
             (Scenario.env_at 2200 "id",
              Post (mkWSMessage "R1" (Some "A") undo 2200))]
            no_redis) "R1").
Proof.
  pose proof (stored_operations_are_live_stroke_adds Scenario.no_strings
            [(Scenario.env_at 1000 "id",
              Join (mkQuery (Some "R1") (Some "Alice") (Some "A")));
             (Scenario.env_at 2000 "op-1",
              Post (mkWSMessage "R1" (Some "A")
                      (stroke_end "s1" Scenario.s1) 2000));
             (Scenario.env_at 2200 "id",
              Post (mkWSMessage "R1" (Some "A") undo 2200))]
            (Scenario.env_at 2300 "id") "R1" Scenario.op1) as H.
  cbv zeta in H. destruct H as [Ht Hlive].
  - vm_compute. apply list_elem_of_here.
  - split; [exact Ht | exact (Hlive Scenario.s1 eq_refl)].
Defined.



(* ===================================================================== *)
(** ** Redo *)
(* ===================================================================== *)



(* ===================================================================== *)
(** ** Joining, leaving and the first snapshot *)
(* ===================================================================== *)

(** X8. A join below the limit with a user id that is new to the room,
    followed within the day by that session's leave, gives back the users
    of the room and leaves its strokes, operation log and redo stack as
    they were; the cursor stored under that id, if any, is dropped. *)
Theorem join_then_leave env env' q r :
  let rid := param_or (q_roomId q) "default" in
  let uid := param_or (q_userId q) (generateId env) in
  let room := room_of env r rid in
  size (users room) < MAX_USERS ->
  users room !! uid = None ->
  (now env' < now env + DAY_MS)%Z ->
  room_of env' (cancel env' rid uid (GET env q r).2).2 rid =
    mkRoomState (strokes room) (operations room) (redoStack room)
                (users room) (delete uid (cursors room)).
Proof.
  intros rid uid room Hsize Hnew Hday.
  rewrite cancel_unfold. simpl. rewrite room_of_stored_now by eauto with json.
  rewrite GET_unfold. simpl. fold rid uid room.
  rewrite bool_decide_eq_false_2 by (unfold room, rid in *; lia). simpl.
  rewrite room_of_stored by first [exact Hday | eauto with json]. simpl.
  by rewrite delete_insert_id.
Qed.

Lemma join_then_leave_witness :
  room_of (Scenario.env_at 5000 "id")
    (cancel (Scenario.env_at 5000 "id") "R1" "C"
       (GET (Scenario.env_at 4000 "id")
          (mkQuery (Some "R1") (Some "Carol") (Some "C")) Scenario.drawn).2).2
    "R1"
  = room_of (Scenario.env_at 4000 "id") Scenario.drawn "R1".
Proof.
  refine (join_then_leave (Scenario.env_at 4000 "id") (Scenario.env_at 5000 "id")
            (mkQuery (Some "R1") (Some "Carol") (Some "C")) Scenario.drawn _ _ _).
  - apply Nat.ltb_lt. vm_compute. reflexivity.
  - vm_compute. reflexivity.
  - vm_compute. reflexivity.
Defined.

Lemma slice_last_length {A} (n : nat) (l : list A) :
  length (slice_last n l) = length l `min` n.
Proof. unfold slice_last. rewrite length_drop. lia. Qed.

Lemma slice_last_all {A} (n : nat) (l : list A) :
  length l ≤ n -> slice_last n l = l.
Proof.
  intros Hle. unfold slice_last.
  replace (length l - n) with 0 by lia. reflexivity.
Qed.

(** X9. The session that a join lets in starts from the stored room: its
    reducer, applied to the [sync_state] it is sent, holds the room's
    strokes (all of them when there are at most 5000, a suffix of 5000
    otherwise), the room's operation log, the two flags computed from the
    log and the redo stack, and a stroke count that agrees with the
    strokes; the strokes in progress it already showed are kept. *)
Theorem joined_session_snapshot env q r me c :
  let rid := param_or (q_roomId q) "default" in
  let room := room_of env r rid in
  size (users room) < MAX_USERS ->
  ∃ m, (GET env q r).1 = StreamResponse [m] ∧
    let c' := handleMessage me m c in
    c_strokes c' `suffix_of` strokes room ∧
    length (c_strokes c') = length (strokes room) `min` MAX_STROKES_IN_STATE ∧
    (length (strokes room) ≤ MAX_STROKES_IN_STATE -> c_strokes c' = strokes room) ∧
    c_operations c' = operations room ∧
    canUndo c' = Some (bool_decide (0 < length (operations room))) ∧
    canRedo c' = Some (bool_decide (0 < length (redoStack room))) ∧
    strokesCount (metrics c') = length (c_strokes c') ∧
    activeStrokes c' = activeStrokes c.
Proof.
  intros rid room Hsize. rewrite GET_unfold. simpl. fold rid room.
  rewrite bool_decide_eq_false_2 by (unfold room, rid in *; lia). simpl.
  eexists. split; [reflexivity|]. unfold handleMessage. simpl.
  case_bool_decide as Hlen; simpl.
  - repeat split; try reflexivity.
    + apply suffix_drop.
    + rewrite slice_last_length. lia.
    + intros ?. lia.
  - repeat split; try reflexivity. lia.
Qed.

Lemma joined_session_snapshot_witness :
  ∃ m, (GET (Scenario.env_at 4000 "id")
          (mkQuery (Some "R1") (Some "Carol") (Some "C")) Scenario.drawn).1
       = StreamResponse [m] ∧
       c_strokes (handleMessage "C" m initial_state)
       = [Scenario.s1; Scenario.s2].
Proof.
  destruct (joined_session_snapshot (Scenario.env_at 4000 "id")
              (mkQuery (Some "R1") (Some "Carol") (Some "C")) Scenario.drawn
              "C" initial_state) as (m & Hm & _ & _ & Hall & _).
  - apply Nat.ltb_lt. vm_compute. reflexivity.
  - exists m. split; [exact Hm|]. apply Hall.
    apply Nat.leb_le. vm_compute. reflexivity.
Defined.

(* ===================================================================== *)
(** ** A session follows the room *)
(* ===================================================================== *)

(** X10. Whoever posts and whatever is posted, a session whose strokes and
    operations are those of the stored room before the POST has the strokes
    of the stored room again after applying what the POST published; its
    operations follow the log too, except across a [clear], which empties
    the log on the server and leaves the session's operations as they
    were. *)
Theorem session_follows_room
    (StringToNumber : string -> JsNum) env message r me c :
  let rid := roomId message in
  let r' := (POST StringToNumber env message r).2 in
  c_strokes c = strokes (room_of env r rid) ->
  c_operations c = operations (room_of env r rid) ->
  let c' := deliver me (emitted r r') c in
  c_strokes c' = strokes (room_of env r' rid) ∧
  (payload message ≠ clear ->
   c_operations c' = operations (room_of env r' rid)) ∧
  (payload message = clear ->
   c_operations c' = c_operations c ∧
   ∀ uid user, userId message = Some uid -> member env r rid uid user ->
     operations (room_of env r' rid) = []).
Proof.
  destruct message as [rid ouid p ts]. simpl. intros Hs Ho.
  destruct (POST_guards StringToNumber env rid ouid p ts r)
    as [(resp & Hresp & Heq)|(uid & user & -> & Hm)].
  { rewrite Heq. simpl. rewrite emitted_refl. simpl.
    split; [done|]. split; [done|]. intros ->. split; [done|].
    intros uid user -> Hm. exfalso. apply Hresp.
    rewrite (POST_member _ _ _ _ _ _ _ _ Hm) in Heq.
    rewrite switch_clear in Heq by apply room_of_JSON. by injection Heq. }
  rewrite (POST_member _ _ _ _ _ _ _ _ Hm).
  destruct p as [? ? ? ? ?|? pts ?|sid stroke|cx cy ?| | | |?|?|?].
  - run_eff. rewrite emitted_app.
    by rewrite (room_of_keys env r (mkRedis (keys r) _)).
  - destruct pts as [[|pt pts]|]; run_eff;
      rewrite ?emitted_app, ?emitted_refl; simpl;
      rewrite ?(room_of_keys env r (mkRedis (keys r) _)) by reflexivity;
      try done.
    unfold handleMessage. simpl. by destruct (activeStrokes c !! _).
  - rewrite switch_stroke_end by apply room_of_JSON. simpl.
    rewrite emitted_app. rewrite room_of_stored_now by eauto with json. simpl.
    by rewrite Hs, Ho.
  - destruct cx, cy; run_eff;
      rewrite ?emitted_app, ?emitted_refl; simpl;
      rewrite ?(room_of_keys env r (mkRedis (keys r) _)) by reflexivity;
      try done.
    unfold handleMessage. simpl. by case_bool_decide.
  - destruct (pop (operations (room_of env r rid))) as [[ops op]|] eqn:Hpop.
    + apply pop_Some in Hpop.
      rewrite (switch_undo _ _ _ _ _ _ _ _ _ (room_of_JSON _ _ _) Hpop). simpl.
      rewrite emitted_app. rewrite room_of_stored_now by eauto with json. simpl.
      by rewrite Hs, Ho, Hpop, removelast_last.
    + apply pop_None in Hpop.
      rewrite (switch_undo_nothing _ _ _ _ _ _ _ Hpop). simpl.
      by rewrite emitted_refl.
  - destruct (pop (redoStack (room_of env r rid))) as [[rs op]|] eqn:Hpop.
    + apply pop_Some in Hpop.
      rewrite (switch_redo _ _ _ _ _ _ _ _ _ (room_of_JSON _ _ _) Hpop). simpl.
      rewrite emitted_app. rewrite room_of_stored_now by eauto with json. simpl.
      by rewrite Hs, Ho.
    + apply pop_None in Hpop.
      rewrite (switch_redo_nothing _ _ _ _ _ _ _ Hpop). simpl.
      by rewrite emitted_refl.
  - rewrite switch_clear by apply room_of_JSON. simpl.
    rewrite emitted_app. by rewrite room_of_stored_now by eauto with json.
  - run_eff. rewrite emitted_app.
    by rewrite (room_of_keys env r (mkRedis (keys r) _)).
  - simpl. by rewrite emitted_refl.
  - simpl. by rewrite emitted_refl.
Qed.

Lemma session_follows_room_witness :
  c_strokes
    (deliver "B"
       (emitted Scenario.fresh
          (POST Scenario.no_strings (Scenario.env_at 2000 "op-1")
             (mkWSMessage "R1" (Some "A") (stroke_end "s1" Scenario.s1) 2000)
             Scenario.fresh).2)
       initial_state)
  = strokes
      (room_of (Scenario.env_at 2000 "op-1")
         (POST Scenario.no_strings (Scenario.env_at 2000 "op-1")
            (mkWSMessage "R1" (Some "A") (stroke_end "s1" Scenario.s1) 2000)
            Scenario.fresh).2 "R1").
Proof.
  refine (proj1 (session_follows_room Scenario.no_strings
            (Scenario.env_at 2000 "op-1")
            (mkWSMessage "R1" (Some "A") (stroke_end "s1" Scenario.s1) 2000)
            Scenario.fresh "B" initial_state _ _)).
  - vm_compute. reflexivity.
  - vm_compute. reflexivity.
Defined.

(* ===================================================================== *)
(** ** The reducer of server events *)
(* ===================================================================== *)

(** X11. The reducer keeps the stroke counter of the metrics equal to the
    number of strokes of the state, whatever the event. *)
Theorem handleMessage_keeps_strokesCount me m c :
  strokesCount (metrics c) = length (c_strokes c) ->
  strokesCount (metrics (handleMessage me m c))
    = length (c_strokes (handleMessage me m c)).
Proof.
  intros Hc. unfold handleMessage.
  destruct (payload m) as [ss us cs yu ops cu cr|s|sid pts ep|sid s op cu cr
                          |uid cx cy d col nm|u|uid|op ss cu cr|op ss cu cr
                          |cu cr|n]; simpl; try done.
  - destruct (activeStrokes c !! sid); done.
  - rewrite length_app. simpl. lia.
  - case_bool_decide; done.
Qed.

Lemma handleMessage_keeps_strokesCount_witness :
  strokesCount
    (metrics (handleMessage "B"
                (mkWSMessage "R1" (Some "A")
                   (stroke_ended "s1" Scenario.s1 None None None) 2000)
                busy_client))
  = length
      (c_strokes (handleMessage "B"
                    (mkWSMessage "R1" (Some "A")
                       (stroke_ended "s1" Scenario.s1 None None None) 2000)
                    busy_client)).
Proof.
  refine (handleMessage_keeps_strokesCount "B"
            (mkWSMessage "R1" (Some "A")
               (stroke_ended "s1" Scenario.s1 None None None) 2000)
            busy_client _).
  vm_compute. reflexivity.
Defined.

(** The updates of one stroke, applied in order to a state in which it is
    active, append their points to it and move its end point. *)
Lemma updates_accumulate me rid uid ts sid batches :
  ∀ c s,
    activeStrokes c !! sid = Some s ->
    let c' :=
      foldl (fun c b =>
               handleMessage me
                 (mkWSMessage rid uid (stroke_updated sid b.1 b.2) ts) c)
            c batches in
    activeStrokes c' !! sid =
      Some (mkStroke (stroke_id s) (stroke_userId s)
              (points s ++ mjoin (batches.*1)) (color s) (width s) (tool s)
              (stroke_timestamp s) (startPoint s)
              (foldl (fun e b => match b.2 with Some p => Some p | None => e end)
                     (endPoint s) batches)
              (filled s)) ∧
    c_strokes c' = c_strokes c.
Proof.
  induction batches as [|[pts ep] batches IH]; intros c s Hs; simpl.
  { rewrite app_nil_r. by destruct s. }
  unfold handleMessage at 2 4. simpl. rewrite Hs.
  match goal with
  | |- context [foldl _ ?c1 batches] =>
      destruct (IH c1 (mkStroke (stroke_id s) (stroke_userId s)
                  (points s ++ pts) (color s) (width s) (tool s)
                  (stroke_timestamp s) (startPoint s)
                  (match ep with Some p => Some p | None => endPoint s end)
                  (filled s))) as [Ha Hb]
  end.
  { simpl. apply lookup_insert_eq. }
  simpl in *. rewrite Ha, Hb. by rewrite <- app_assoc.
Qed.

(** X12. The life of a stroke in a session: after its [stroke_start], the
    [stroke_update] events of that stroke, in the order of their arrival,
    append their points to the active stroke and move its end point to the
    last one given, while the committed strokes do not change; its
    [stroke_end] then takes it out of the active strokes and appends the
    committed stroke to the strokes. *)
Theorem stroke_life_in_session me rid uid ts s batches s' op cu cr c :
  let started := handleMessage me (mkWSMessage rid uid (stroke_started s) ts) c in
  let updated :=
    foldl (fun c b =>
             handleMessage me
               (mkWSMessage rid uid (stroke_updated (stroke_id s) b.1 b.2) ts) c)
          started batches in
  let ended :=
    handleMessage me
      (mkWSMessage rid uid (stroke_ended (stroke_id s) s' op cu cr) ts) updated in
  activeStrokes updated !! stroke_id s =
    Some (mkStroke (stroke_id s) (stroke_userId s)
            (points s ++ mjoin (batches.*1)) (color s) (width s) (tool s)
            (stroke_timestamp s) (startPoint s)
            (foldl (fun e b => match b.2 with Some p => Some p | None => e end)
                   (endPoint s) batches)
            (filled s)) ∧
  c_strokes updated = c_strokes c ∧
  activeStrokes ended !! stroke_id s = None ∧
  c_strokes ended = c_strokes c ++ [s'].
Proof.
  intros started updated ended.
  destruct (updates_accumulate me rid uid ts (stroke_id s) batches started s)
    as [Ha Hb].
  { subst started. unfold handleMessage. simpl. apply lookup_insert_eq. }
  fold updated in Ha, Hb. split; [exact Ha|]. split; [exact Hb|].
  subst ended. split.
  - unfold handleMessage at 1. simpl. apply lookup_delete_eq.
  - unfold handleMessage at 1. simpl. by rewrite Hb.
Qed.

(* ===================================================================== *)
(** ** Notifications, reconnection and the cursor throttle *)
(* ===================================================================== *)

(** X13. [addNotification] keeps the ten most recent notifications: its
    result is the last ten of the previous list followed by the new one,
    never longer than ten, with the new notification at the end. *)
Theorem addNotification_keeps_latest message type notifId now prev :
  let n := mkNotification notifId message type now in
  let next := addNotification message type notifId now prev in
  next = slice_last MAX_NOTIFICATIONS (prev ++ [n]) ∧
  length next = S (length prev) `min` MAX_NOTIFICATIONS ∧
  last next = Some n.
Proof.
  intros n next. subst next. unfold addNotification, MAX_NOTIFICATIONS.
  fold n. split; [|split].
  - unfold slice_last. rewrite length_app. simpl.
    replace (length prev + 1 - 10) with (length prev - 9) by lia.
    rewrite drop_app_le by lia. reflexivity.
  - rewrite length_app, slice_last_length. simpl. lia.
  - apply last_snoc.
Qed.

(** X14. Dismissing an id removes every notification with that id and
    keeps all the others, each as often as it was there and in their order:
    the result is a sublist of the list, holds no notification with the id,
    and around any notification of the list it is made of what is kept
    before it, the notification itself unless it has the id, and what is
    kept after it. The clean-up that follows an [addNotification] therefore
    gives back the (at most nine) notifications that the addition had kept,
    less those that had the same id: all of them when the id was new. *)
Theorem dismissNotification_removes id message type now prev :
  Forall (fun n => notification_id n ≠ id) (dismissNotification id prev) ∧
  dismissNotification id prev `sublist_of` prev ∧
  (∀ before n after, prev = before ++ n :: after ->
     dismissNotification id prev =
       dismissNotification id before ++
       (if decide (notification_id n = id) then [] else [n]) ++
       dismissNotification id after) ∧
  dismissNotification id (addNotification message type id now prev)
    = dismissNotification id (slice_last (MAX_NOTIFICATIONS - 1) prev) ∧
  (Forall (fun n => notification_id n ≠ id) prev ->
   dismissNotification id prev = prev ∧
   dismissNotification id (addNotification message type id now prev)
     = slice_last (MAX_NOTIFICATIONS - 1) prev).
Proof.
  unfold dismissNotification.
  assert (Hadd : ∀ l,
    filter (fun n => notification_id n ≠ id) (addNotification message type id now l)
    = filter (fun n => notification_id n ≠ id) (slice_last (MAX_NOTIFICATIONS - 1) l)).
  { intros l. unfold addNotification. rewrite filter_app.
    rewrite filter_cons_False by (simpl; by intros Hne).
    by rewrite filter_nil, app_nil_r. }
  assert (Hid : ∀ l, Forall (fun n => notification_id n ≠ id) l ->
                 filter (fun n => notification_id n ≠ id) l = l).
  { induction l as [|n l IH]; [done|]. intros [Hn Hl]%Forall_cons.
    rewrite filter_cons_True by done. by rewrite IH. }
  split; [|split; [|split; [|split]]].
  - apply Forall_forall. intros n Hn. by apply list_elem_of_filter in Hn as [? _].
  - apply sublist_filter.
  - intros before n after ->. rewrite filter_app. f_equal.
    destruct (decide (notification_id n = id)) as [Hn|Hn].
    + by rewrite filter_cons_False by (by intros Hne).
    + by rewrite filter_cons_True by done.
  - apply Hadd.
  - intros Hfresh. split; [by apply Hid|].
    rewrite Hadd. apply Hid. unfold slice_last. by apply Forall_drop.
Qed.

Lemma dismissNotification_removes_witness :
  dismissNotification "n2"
    (addNotification "saved" success "n2" 9000
       [mkNotification "n1" "joined" info 8000])
  = [mkNotification "n1" "joined" info 8000].
Proof.
  refine (proj2 (proj2 (proj2 (proj2 (proj2 (dismissNotification_removes "n2"
            "saved" success 9000 [mkNotification "n1" "joined" info 8000]))))
            _)).
  constructor; [discriminate | constructor].
Defined.

(** X15. The delay before a reconnection, as a function of the number of
    errors counted since the connection last opened: one second at the
    first error (count 0), twice the delay before at each of the next four,
    up to 16 seconds (count 4), and 30 seconds from then on (count 5 and
    more); it lies between 1000 and 30000 ms and never decreases. *)
Theorem reconnect_delay_bounds (attempt : nat) :
  reconnect_delay 0 = 1000%Z ∧
  (attempt < 4 ->
   reconnect_delay (S attempt) = (2 * reconnect_delay attempt)%Z) ∧
  reconnect_delay 4 = 16000%Z ∧
  reconnect_delay (attempt + 5) = 30000%Z ∧
  (1000 ≤ reconnect_delay attempt ≤ 30000)%Z ∧
  (reconnect_delay attempt ≤ reconnect_delay (S attempt))%Z.
Proof.
  unfold reconnect_delay.
  assert (H1 : (1 ≤ 2 ^ Z.of_nat attempt)%Z).
  { apply (Z.pow_le_mono_r 2 0); lia. }
  assert (H2 : (2 ^ Z.of_nat (S attempt) = 2 * 2 ^ Z.of_nat attempt)%Z).
  { rewrite Nat2Z.inj_succ, Z.pow_succ_r; lia. }
  assert (H3 : (2 ^ Z.of_nat (attempt + 5) = 32 * 2 ^ Z.of_nat attempt)%Z).
  { rewrite Nat2Z.inj_add, Z.pow_add_r by lia. simpl. lia. }
  assert (H4 : attempt < 4 -> (2 ^ Z.of_nat attempt ≤ 8)%Z).
  { intros Hlt. change 8%Z with (2 ^ 3)%Z. apply Z.pow_le_mono_r; lia. }
  rewrite H2, H3.
  split; [reflexivity|]. split; [intros Hlt; specialize (H4 Hlt); lia|].
  split; [reflexivity|]. repeat split; lia.
Qed.

Lemma reconnect_delay_bounds_witness :
  reconnect_delay 3 = (2 * reconnect_delay 2)%Z ∧ reconnect_delay 3 = 8000%Z.
Proof.
  split; [|reflexivity].
  refine (proj1 (proj2 (reconnect_delay_bounds 2)) _). lia.
Defined.

(** X16. The Redis client waits 50 ms more at each retry, up to half a
    second: the delay is never above 500 ms, never decreases, is
    [50 * retries] up to the tenth retry and 500 ms from then on. *)
Theorem reconnectStrategy_bounds (retries : Z) :
  (reconnectStrategy retries ≤ 500)%Z ∧
  (reconnectStrategy retries ≤ reconnectStrategy (retries + 1))%Z ∧
  ((retries ≤ 10)%Z -> reconnectStrategy retries = (50 * retries)%Z) ∧
  ((10 ≤ retries)%Z -> reconnectStrategy retries = 500%Z).
Proof. unfold reconnectStrategy. repeat split; lia. Qed.

Lemma reconnectStrategy_bounds_witness :
  reconnectStrategy 3 = 150%Z ∧ reconnectStrategy 40 = 500%Z.
Proof.
  split.
  - refine (proj1 (proj2 (proj2 (reconnectStrategy_bounds 3))) _). lia.
  - refine (proj2 (proj2 (proj2 (reconnectStrategy_bounds 40))) _). lia.
Defined.

(** X17. However often and at whatever instants [updateCursor] is called,
    two cursor messages in a row are sent at least 33 ms apart, and the
    first at least 33 ms after the instant recorded before. *)
Theorem cursor_messages_are_spaced calls :
  ∀ lastPing, spaced 33 lastPing (cursor_sends calls lastPing).
Proof.
  induction calls as [|[now [[x y] d]] calls IH]; intros lastPing; simpl;
    [done|].
  unfold updateCursor. destruct (now - lastPing <? 33)%Z eqn:Hlt.
  - apply IH.
  - apply Z.ltb_ge in Hlt. simpl. split; [lia | apply IH].
Qed.

(* ===================================================================== *)
(** ** The drawing actions of the hook *)
(* ===================================================================== *)

Lemma update_points_app sid a b :
  update_points sid (a ++ b) = update_points sid a ++ update_points sid b.
Proof. unfold update_points. by rewrite omap_app, join_app. Qed.

Lemma drawn_points_app a b :
  drawn_points (a ++ b) = drawn_points a ++ drawn_points b.
Proof. unfold drawn_points. by rewrite omap_app. Qed.

Lemma draw_app evs evs' refs :
  draw (evs ++ evs') refs =
  let '(r1, o1) := draw evs refs in
  let '(r2, o2) := draw evs' r1 in
  (r2, o1 ++ o2).
Proof.
  revert refs. induction evs as [|ev evs IH]; intros refs; simpl.
  { by destruct (draw evs' refs). }
  destruct (draw_step ev refs) as [r0 o0]. rewrite IH.
  destruct (draw evs r0) as [r1 o1]. destruct (draw evs' r1) as [r2 o2].
  by rewrite app_assoc.
Qed.

(** One event while a brush stroke is drawn. *)
Lemma brush_step ev refs cur :
  currentStroke refs = Some cur ->
  is_shape (tool cur) = false ->
  length (pointBatch refs) ≤ 1 ->
  ∃ refs' out,
    draw_step ev refs = (refs', out) ∧
    currentStroke refs' =
      Some (mkStroke (stroke_id cur) (stroke_userId cur)
              (points cur ++ drawn_points [ev]) (color cur) (width cur) (tool cur)
              (stroke_timestamp cur) (startPoint cur) (endPoint cur) (filled cur)) ∧
    pointBatch refs ++ drawn_points [ev]
      = update_points (stroke_id cur) out ++ pointBatch refs' ∧
    length (pointBatch refs') ≤ 1 ∧
    Forall (fun m => ∃ l, m = stroke_update (stroke_id cur) (Some l) (last l) ∧
                          1 ≤ length l ≤ 2) out.
Proof.
  intros Hcur Htool Hlen. destruct refs as [c batch armed]. simpl in *. subst c.
  assert (Hsame : mkStroke (stroke_id cur) (stroke_userId cur)
              (points cur ++ []) (color cur) (width cur) (tool cur)
              (stroke_timestamp cur) (startPoint cur) (endPoint cur) (filled cur)
            = cur) by (rewrite app_nil_r; by destruct cur).
  destruct batch as [|b [|b2 batch]]; simpl in *; [| |lia];
    destruct ev as [p|]; simpl;
    unfold updateStroke, batchTimer, update_points; simpl;
    rewrite ?Htool; try destruct armed; simpl;
    rewrite ?bool_decide_eq_true_2 by done;
    eexists _, _; (split; [reflexivity|]); simpl;
    rewrite ?bool_decide_eq_true_2 by done; simpl; rewrite ?Hsame;
    repeat split; try done; try lia.
  all: constructor; [|constructor].
  all: first [ exists [b; p]; split; [reflexivity | simpl; lia]
             | exists [b]; split; [reflexivity | simpl; lia] ].
Qed.

Arguments drawn_points : simpl never.
Arguments update_points : simpl never.

Lemma brush_run evs :
  ∀ refs cur,
  currentStroke refs = Some cur ->
  is_shape (tool cur) = false ->
  length (pointBatch refs) ≤ 1 ->
  ∃ refs' out,
    draw evs refs = (refs', out) ∧
    currentStroke refs' =
      Some (mkStroke (stroke_id cur) (stroke_userId cur)
              (points cur ++ drawn_points evs) (color cur) (width cur) (tool cur)
              (stroke_timestamp cur) (startPoint cur) (endPoint cur) (filled cur)) ∧
    pointBatch refs ++ drawn_points evs
      = update_points (stroke_id cur) out ++ pointBatch refs' ∧
    length (pointBatch refs') ≤ 1 ∧
    Forall (fun m => ∃ l, m = stroke_update (stroke_id cur) (Some l) (last l) ∧
                          1 ≤ length l ≤ 2) out.
Proof.
  induction evs as [|ev evs IH]; intros refs cur Hcur Htool Hlen.
  { exists refs, []. simpl. rewrite !app_nil_r.
    split; [done|]. split; [rewrite Hcur; by destruct cur|]. done. }
  destruct (brush_step ev refs cur Hcur Htool Hlen)
    as (r1 & o1 & Hstep & Hcur1 & Hb1 & Hlen1 & Hout1).
  destruct (IH r1 _ Hcur1 Htool Hlen1)
    as (r2 & o2 & Hrun & Hcur2 & Hb2 & Hlen2 & Hout2).
  simpl in *. exists r2, (o1 ++ o2). rewrite Hstep, Hrun.
  split; [done|].
  change (ev :: evs) with ([ev] ++ evs). rewrite drawn_points_app.
  split; [by rewrite Hcur2, <- app_assoc|].
  split.
  { rewrite update_points_app, app_assoc, Hb1, <- !app_assoc. by rewrite Hb2. }
  split; [done|]. by apply Forall_app.
Qed.

(** A brush stroke in progress, drawn further and ended: what is sent. *)
Lemma brush_stroke_sent evs refs cur :
  currentStroke refs = Some cur ->
  is_shape (tool cur) = false ->
  length (pointBatch refs) ≤ 1 ->
  ∃ refs2 out2 updates,
    draw evs refs = (refs2, out2) ∧
    out2 ++ (endStroke refs2).2 =
      updates ++
      [stroke_end (stroke_id cur)
         (mkStroke (stroke_id cur) (stroke_userId cur)
            (points cur ++ drawn_points evs) (color cur) (width cur) (tool cur)
            (stroke_timestamp cur) (startPoint cur) (endPoint cur)
            (filled cur))] ∧
    Forall (fun m => ∃ l, m = stroke_update (stroke_id cur) (Some l) (last l) ∧
                          1 ≤ length l ≤ 2) updates ∧
    update_points (stroke_id cur) updates
      = pointBatch refs ++ drawn_points evs ∧
    currentStroke (endStroke refs2).1 = None ∧
    pointBatch (endStroke refs2).1 = [].
Proof.
  intros Hcur Htool Hbatch.
  destruct (brush_run evs refs cur)
    as (refs2 & out2 & Hrun & Hcur2 & Hb2 & Hlen2 & Hout2); [done|done|done|].
  exists refs2, out2.
  destruct refs2 as [c2 batch2 armed2]. simpl in *. subst c2.
  unfold endStroke, flushPointBatch. simpl.
  destruct batch2 as [|b [|b2 batch2]]; simpl in *; [| |lia].
  - exists out2. rewrite app_nil_r in Hb2. by repeat split.
  - exists (out2 ++ [stroke_update (stroke_id cur) (Some [b]) (Some b)]).
    split; [done|]. split; [by rewrite <- app_assoc|].
    split.
    { apply Forall_app. split; [done|].
      constructor; [|constructor]. exists [b]. split; [reflexivity|]. simpl. lia. }
    split; [|done].
    rewrite update_points_app, Hb2. unfold update_points at 2. simpl.
    rewrite bool_decide_eq_true_2 by done. reflexivity.
Qed.

(** X18. While a freehand stroke (brush, eraser, fill) is drawn, no point
    is lost or repeated by the batching. [startStroke] may be called in any
    state of the refs that the drawing actions can reach, that is with at
    most one point waiting in the batch (a point of a stroke that was
    started and not ended). Whatever the order of the drawn points and of
    the timer callbacks, the [stroke_update] messages sent between
    [startStroke] and the [stroke_end] of [endStroke] all bear the id of the
    new stroke and carry, in batches of one or two points and in order, the
    point that was waiting, if any, followed by exactly the points drawn:
    exactly the points drawn when none was waiting, as after every
    [endStroke]. The stroke sent by [endStroke] holds the first point
    followed by the points drawn, and the refs are left without stroke and
    without pending point. *)
Theorem brush_points_are_sent_once me p0 settings sid now evs refs0 :
  is_shape (settings_tool settings) = false ->
  batch_ok refs0 ->
  let '(refs1, out1) := startStroke me p0 settings sid now refs0 in
  let '(refs2, out2) := draw evs refs1 in
  let '(refs3, out3) := endStroke refs2 in
  ∃ updates stroke,
    out2 ++ out3 = updates ++ [stroke_end sid stroke] ∧
    Forall (fun m => ∃ l, m = stroke_update sid (Some l) (last l) ∧
                          1 ≤ length l ≤ 2) updates ∧
    update_points sid updates = pointBatch refs0 ++ drawn_points evs ∧
    stroke_id stroke = sid ∧
    stroke_userId stroke = me ∧
    points stroke = p0 :: drawn_points evs ∧
    currentStroke refs3 = None ∧
    pointBatch refs3 = [].
Proof.
  intros Htool [Hbatch _]. unfold startStroke.
  set (cur := mkStroke sid me [p0] _ _ _ _ _ _ _).
  destruct (brush_stroke_sent evs
              (mkDrawingRefs (Some cur) (pointBatch refs0) (batchTimeout refs0))
              cur)
    as (refs2 & out2 & updates & Hrun & Hout & Hupd & Hpts & Hcur3 & Hb3);
    [done|done|done|].
  rewrite Hrun. destruct (endStroke refs2) as [refs3 out3]. simpl in *.
  eexists updates, _. split; [exact Hout|]. by repeat split.
Qed.

Lemma update_points_single sid p :
  update_points sid [stroke_update sid (Some [p]) (Some p)] = [p].
Proof.
  unfold update_points. simpl. by rewrite bool_decide_eq_true_2 by done.
Qed.

Lemma shape_run evs refs cur :
  currentStroke refs = Some cur ->
  is_shape (tool cur) = true ->
  length (pointBatch refs) ≤ 1 ->
  ∃ refs' out,
    draw evs refs = (refs', out) ∧
    currentStroke refs' =
      Some (mkStroke (stroke_id cur) (stroke_userId cur) (points cur)
              (color cur) (width cur) (tool cur) (stroke_timestamp cur)
              (startPoint cur)
              (match last (drawn_points evs) with
               | Some p => Some p
               | None => endPoint cur
               end)
              (filled cur)) ∧
    Forall (fun m => ∃ p, m = stroke_update (stroke_id cur) (Some [p]) (Some p))
           out ∧
    ((pointBatch refs' = [] ∧
      update_points (stroke_id cur) out
        `sublist_of` pointBatch refs ++ drawn_points evs ∧
      last (update_points (stroke_id cur) out)
        = last (pointBatch refs ++ drawn_points evs)) ∨
     (∃ p d, pointBatch refs' = [p] ∧
             pointBatch refs ++ drawn_points evs = d ++ [p] ∧
             update_points (stroke_id cur) out `sublist_of` d)).
Proof.
  intros Hcur Htool Hbatch.
  induction evs as [|ev evs IH] using rev_ind.
  { exists refs, []. simpl. split; [done|].
    split; [rewrite Hcur; by destruct cur|]. split; [done|].
    rewrite app_nil_r.
    destruct (pointBatch refs) as [|b [|? ?]]; simpl in *; [by left| |lia].
    right. by exists b, []. }
  destruct IH as (r1 & o1 & Hrun & Hcur1 & Hout1 & Hinv).
  rewrite draw_app, Hrun. simpl. rewrite drawn_points_app, app_assoc.
  revert Hinv. generalize (pointBatch refs ++ drawn_points evs).
  intros all Hinv.
  destruct r1 as [c1 batch1 armed1]. simpl in *. subst c1.
  destruct ev as [q|]; simpl.
  - (* a point is drawn *)
    unfold updateStroke. simpl. rewrite Htool.
    eexists _, _. split; [reflexivity|]. rewrite ?app_nil_r.
    change (drawn_points [Drawn q]) with [q]. rewrite last_snoc. simpl.
    split; [done|]. split; [done|]. right.
    destruct Hinv as [(-> & Hsub & _)|(p & d & -> & Hd & Hsub)].
    + by exists q, all.
    + exists q, all. split; [done|]. split; [done|].
      rewrite Hd. by apply sublist_inserts_r.
  - (* the timer fires *)
    change (drawn_points [TimerFired]) with (@nil Point). rewrite ?app_nil_r.
    unfold batchTimer. simpl.
    destruct armed1; simpl.
    + unfold flushPointBatch. simpl.
      destruct Hinv as [(-> & Hsub & Hlast)|(p & d & -> & Hd & Hsub)]; simpl.
      * eexists _, _. split; [reflexivity|]. rewrite ?app_nil_r.
        split; [done|]. split; [done|]. by left.
      * eexists _, _. split; [reflexivity|]. rewrite ?app_nil_r. simpl.
        split; [done|].
        split. { apply Forall_app. split; [done|]. constructor; [|constructor].
                 by exists p. }
        left. split; [done|].
        rewrite update_points_app, update_points_single, Hd, !last_snoc.
        split; [|done]. by apply sublist_app.
    + eexists _, _. split; [reflexivity|]. rewrite ?app_nil_r.
      split; [done|]. split; [done|].
      destruct Hinv as [(-> & Hsub & Hlast)|(p & d & -> & Hd & Hsub)];
        [by left | right; by exists p, d].
Qed.

(** X20. While a shape (line, rectangle, circle) is drawn, from any state
    of the refs that the drawing actions can reach (at most one point
    waiting in the batch, left by a stroke that was not ended), every update
    sent bears the id of the shape and carries a single point: a position of
    the shape or the point that was waiting. Positions may be skipped but
    never reordered, and the last position (the point that was waiting, when
    the shape was not moved at all) is always sent before the [stroke_end].
    The stroke sent by [endStroke] keeps the first point as its only point
    and start point, and has the last position as its end point. With no
    point waiting at [startStroke], as after every [endStroke], the updates
    carry positions of the shape only. *)
Theorem shape_final_point_is_sent me p0 settings sid now evs refs0 :
  is_shape (settings_tool settings) = true ->
  batch_ok refs0 ->
  let '(refs1, out1) := startStroke me p0 settings sid now refs0 in
  let '(refs2, out2) := draw evs refs1 in
  let '(refs3, out3) := endStroke refs2 in
  ∃ updates stroke,
    out2 ++ out3 = updates ++ [stroke_end sid stroke] ∧
    Forall (fun m => ∃ p, m = stroke_update sid (Some [p]) (Some p)) updates ∧
    update_points sid updates
      `sublist_of` pointBatch refs0 ++ drawn_points evs ∧
    last (update_points sid updates)
      = last (pointBatch refs0 ++ drawn_points evs) ∧
    points stroke = [p0] ∧
    startPoint stroke = Some p0 ∧
    endPoint stroke = last (drawn_points evs) ∧
    currentStroke refs3 = None ∧
    pointBatch refs3 = [].
Proof.
  intros Htool [Hbatch _]. unfold startStroke.
  set (cur := mkStroke sid me [p0] _ _ _ _ _ _ _).
  destruct (shape_run evs (mkDrawingRefs (Some cur) (pointBatch refs0)
                             (batchTimeout refs0)) cur)
    as (refs2 & out2 & Hrun & Hcur2 & Hout2 & Hinv); [done|done|done|].
  rewrite Hrun. destruct refs2 as [c2 batch2 armed2]. simpl in *. subst c2.
  unfold endStroke, flushPointBatch. simpl.
  assert (Hend : match last (drawn_points evs) with
                 | Some p => Some p | None => None end
                 = last (drawn_points evs)) by (by destruct (last _)).
  destruct Hinv as [(-> & Hsub & Hlast)|(p & d & -> & Hd & Hsub)]; simpl.
  - eexists out2, _. split; [reflexivity|]. by repeat split.
  - eexists (out2 ++ [stroke_update sid (Some [p]) (Some p)]), _.
    split; [by rewrite <- app_assoc|].
    split. { apply Forall_app. split; [done|]. constructor; [|constructor].
             by exists p. }
    rewrite update_points_app, update_points_single, Hd, !last_snoc.
    split; [by apply sublist_app|]. by repeat split.
Qed.

Lemma hook_step_small me a refs :
  batch_ok refs ->
  ∃ refs' out,
    hook_step me a refs = (refs', out) ∧ batch_ok refs' ∧
    ∀ sid pts ep, stroke_update sid pts ep ∈ out ->
      ∃ l, pts = Some l ∧ 1 ≤ length l ≤ 2 ∧ ep = last l.
Proof.
  intros [Hlen Hnone]. destruct refs as [c batch armed]. simpl in *.
  assert (Hno : ∀ sid pts ep, stroke_update sid pts ep ∈ @nil ClientPayload ->
                  ∃ l, pts = Some l ∧ 1 ≤ length l ≤ 2 ∧ ep = last l).
  { intros ? ? ? []%elem_of_nil. }
  destruct a as [p0 settings sid now|[p|]|]; simpl.
  - eexists _, _. split; [reflexivity|]. split; [by split|].
    intros ? ? ? Hin%list_elem_of_singleton. discriminate.
  - unfold updateStroke. simpl. destruct c as [cur|].
    2: { eexists _, _. split; [reflexivity|]. split; [by split | exact Hno]. }
    destruct (is_shape (tool cur)).
    { eexists _, _. split; [reflexivity|]. split; [|exact Hno].
      split; simpl; [lia|done]. }
    destruct batch as [|b [|b2 batch]]; simpl in *; [| |lia].
    + eexists _, _. split; [reflexivity|]. split; [|exact Hno].
      split; simpl; [lia|done].
    + eexists _, _. split; [reflexivity|]. split; [split; simpl; [lia|done]|].
      intros ? ? ? Hin%list_elem_of_singleton. simplify_eq.
      exists [b; p]. simpl. split; [done|]. split; [lia|done].
  - unfold batchTimer, flushPointBatch. simpl. destruct armed; simpl.
    + destruct batch as [|b [|b2 batch]]; simpl in *; [| |lia].
      * eexists _, _. split; [reflexivity|]. split; [by split | exact Hno].
      * destruct c as [cur|]; [|by specialize (Hnone eq_refl)].
        eexists _, _. split; [reflexivity|]. split; [split; simpl; [lia|done]|].
        intros ? ? ? Hin%list_elem_of_singleton. simplify_eq.
        exists [b]. simpl. split; [done|]. split; [lia|done].
    + eexists _, _. split; [reflexivity|]. split; [by split | exact Hno].
  - unfold endStroke, flushPointBatch. simpl. destruct c as [cur|].
    2: { eexists _, _. split; [reflexivity|]. split; [by split | exact Hno]. }
    destruct batch as [|b [|b2 batch]]; simpl in *; [| |lia].
    + eexists _, _. split; [reflexivity|]. split; [by split|].
      intros ? ? ? Hin%list_elem_of_singleton. discriminate.
    + eexists _, _. split; [reflexivity|]. split; [split; simpl; [lia|done]|].
      intros ? ? ? [Hin|Hin%list_elem_of_singleton]%elem_of_cons; [|discriminate].
      simplify_eq. exists [b]. simpl. split; [done|]. split; [lia|done].
Qed.

(** X19. Whatever the drawing actions of a session, at most one point
    waits in the batch between two actions (none while no stroke is being
    drawn), and every [stroke_update] sent carries one or two points with
    the last of them as its end point: the limit of 20 points that the
    server applies when it relays an update never cuts a batch. *)
Theorem update_batches_are_small me acts :
  ∀ refs, batch_ok refs ->
    let '(refs', out) := hook_run me acts refs in
    batch_ok refs' ∧
    ∀ sid pts ep, stroke_update sid pts ep ∈ out ->
      ∃ l, pts = Some l ∧ 1 ≤ length l ≤ MIN_POINTS_TO_SEND ∧ ep = last l ∧
           take 20 l = l.
Proof.
  induction acts as [|a acts IH]; intros refs Hok; simpl.
  { split; [done|]. intros ? ? ? []%elem_of_nil. }
  destruct (hook_step_small me a refs Hok) as (r1 & o1 & -> & Hok1 & Hout1).
  specialize (IH r1 Hok1). destruct (hook_run me acts r1) as [r2 o2].
  destruct IH as [Hok2 Hout2]. split; [done|].
  intros sid pts ep [Hin|Hin]%elem_of_app; [|by apply (Hout2 sid)].
  destruct (Hout1 _ _ _ Hin) as (l & -> & Hl & ->).
  exists l. unfold MIN_POINTS_TO_SEND. repeat split; try lia.
  apply take_ge. lia.
Qed.

Lemma emitted_published r r' evs :
  published r' = published r ++ evs -> emitted r r' = evs.
Proof. intros Hp. unfold emitted. by rewrite Hp, drop_app_length. Qed.

Lemma relayed_points_app sid a b :
  relayed_points sid (a ++ b) = relayed_points sid a ++ relayed_points sid b.
Proof. unfold relayed_points. by rewrite omap_app, join_app. Qed.

Lemma committed_strokes_app a b :
  committed_strokes (a ++ b) = committed_strokes a ++ committed_strokes b.
Proof. unfold committed_strokes. by rewrite omap_app. Qed.

Arguments relayed_points : simpl never.
Arguments committed_strokes : simpl never.

Lemma post_one_drawing (StringToNumber : string -> JsNum) env rid me user sid p r :
  member env r rid me user ->
  match p with
  | stroke_start _ _ _ _ _ | stroke_end _ _ => True
  | stroke_update _ (Some (x :: l)) _ => length (x :: l) ≤ 20
  | _ => False
  end ->
  let r1 := (POST StringToNumber env (sendMessage rid me (now env) p) r).2 in
  member env r1 rid me user ∧
  strokes (room_of env r1 rid) = strokes (room_of env r rid) ++ omap committed [p] ∧
  ∃ e1, published r1 = published r ++ e1 ∧
    relayed_points sid e1 = JSON_point <$> update_points sid [p] ∧
    committed_strokes e1 = omap committed [p].
Proof.
  intros Hm Hp. unfold sendMessage, JSON_message. simpl.
  rewrite (POST_member _ _ _ _ _ _ _ _ Hm).
  destruct Hm as (Hrid & Hme & Hu). unfold member.
  destruct p as [? ? ? ? ?|sid' [[|x l]|] ?|sid' stroke| | | | | | |]; try done.
  - run_eff. rewrite (room_of_keys env r (mkRedis (keys r) _)) by reflexivity.
    rewrite app_nil_r. split; [done|]. split; [done|].
    eexists. split; [reflexivity|]. done.
  - run_eff. rewrite (room_of_keys env r (mkRedis (keys r) _)) by reflexivity.
    rewrite app_nil_r. split; [done|]. split; [done|].
    eexists. split; [reflexivity|].
    unfold relayed_points, update_points, committed_strokes. simpl.
    split; [|done]. case_bool_decide; simpl; [|done].
    rewrite !app_nil_r.
    rewrite firstn_all2 by (rewrite length_fmap; simpl in *; lia).
    rewrite JSON_point_idemp. f_equal.
    apply (fmap_idemp _ _ JSON_point_idemp).
  - unfold JSON_client. rewrite switch_stroke_end by apply room_of_JSON. simpl.
    rewrite room_of_stored_now by eauto with json. simpl.
    rewrite JSON_stroke_idemp.
    split; [done|]. split; [done|].
    eexists. split; [reflexivity|]. done.
Qed.

(** Posting the drawing messages of a member, one after the other. *)
Lemma post_all_drawing (StringToNumber : string -> JsNum) env rid me user sid ps :
  ∀ r,
  member env r rid me user ->
  Forall (fun p => match p with
                   | stroke_start _ _ _ _ _ | stroke_end _ _ => True
                   | stroke_update _ (Some (x :: l)) _ => length (x :: l) ≤ 20
                   | _ => False
                   end) ps ->
  let r' := post_all StringToNumber env rid me ps r in
  member env r' rid me user ∧
  strokes (room_of env r' rid) = strokes (room_of env r rid) ++ omap committed ps ∧
  relayed_points sid (emitted r r') = JSON_point <$> update_points sid ps ∧
  committed_strokes (emitted r r') = omap committed ps ∧
  ∃ evs, published r' = published r ++ evs.
Proof.
  induction ps as [|p ps IH]; intros r Hm Hall; simpl.
  { rewrite emitted_refl, app_nil_r. split; [done|]. split; [done|].
    split; [reflexivity|]. split; [reflexivity|].
    exists []. by rewrite app_nil_r. }
  apply Forall_cons in Hall as [Hp Hall].
  destruct (post_one_drawing StringToNumber env rid me user sid p r Hm Hp)
    as (Hm1 & Hs1 & e1 & Hp1 & Hr1 & Hc1).
  set (r1 := (POST StringToNumber env (sendMessage rid me (now env) p) r).2) in *.
  destruct (IH r1 Hm1 Hall) as (Hm2 & Hs2 & Hr2 & Hc2 & e2 & Hp2).
  split; [done|].
  split. { rewrite Hs2, Hs1. simpl. rewrite <- app_assoc. f_equal.
           by destruct (committed p). }
  assert (Hem : emitted r (post_all StringToNumber env rid me ps r1)
                = e1 ++ emitted r1 (post_all StringToNumber env rid me ps r1)).
  { rewrite (emitted_published r1 _ e2 Hp2).
    apply emitted_published. by rewrite Hp2, Hp1, app_assoc. }
  rewrite Hem, relayed_points_app, committed_strokes_app, Hr1, Hr2, Hc1, Hc2.
  change (p :: ps) with ([p] ++ ps). rewrite update_points_app, fmap_app.
  split; [done|]. split; [simpl; by destruct (committed p)|].
  exists (e1 ++ e2). by rewrite Hp2, Hp1, app_assoc.
Qed.

(** X22. A freehand stroke drawn by a member reaches the room whole.
    [startStroke] is called in any state of the refs that the drawing
    actions can reach (at most one point waiting in the batch). When the
    messages sent by [startStroke], the drawing events and [endStroke] are
    posted in order, the stored strokes gain exactly one stroke, made of the
    first point followed by the points drawn, each as its JSON text has it;
    that stroke is the one committed by the published [stroke_end]; and the
    published [stroke_update] events of the stroke carry, in order, the
    point that was waiting at [startStroke], if any, followed by exactly the
    points drawn. *)
Theorem brush_stroke_reaches_the_room
    (StringToNumber : string -> JsNum) env r rid me user
    p0 settings sid t evs refs0 :
  member env r rid me user ->
  is_shape (settings_tool settings) = false ->
  batch_ok refs0 ->
  let '(refs1, out1) := startStroke me p0 settings sid t refs0 in
  let '(refs2, out2) := draw evs refs1 in
  let '(refs3, out3) := endStroke refs2 in
  let r' := post_all StringToNumber env rid me (out1 ++ out2 ++ out3) r in
  ∃ stroke,
    stroke_id stroke = sid ∧
    points stroke = JSON_point <$> (p0 :: drawn_points evs) ∧
    strokes (room_of env r' rid) = strokes (room_of env r rid) ++ [stroke] ∧
    committed_strokes (emitted r r') = [stroke] ∧
    relayed_points sid (emitted r r')
      = JSON_point <$> (pointBatch refs0 ++ drawn_points evs).
Proof.
  intros Hm Htool [Hbatch _]. unfold startStroke.
  set (cur := mkStroke sid me [p0] _ _ _ _ _ _ _).
  destruct (brush_stroke_sent evs
              (mkDrawingRefs (Some cur) (pointBatch refs0) (batchTimeout refs0))
              cur)
    as (refs2 & out2 & updates & Hrun & Hout & Hupd & Hpts & _ & _);
    [done|done|done|].
  rewrite Hrun. destruct (endStroke refs2) as [refs3 out3].
  simpl in Hout, Hupd, Hpts. rewrite Hout.
  match goal with
  | |- context [post_all _ _ _ _ ?ps r] =>
      destruct (post_all_drawing StringToNumber env rid me user sid ps r Hm)
        as (_ & Hs & Hr & Hc & _)
  end.
  { constructor; [done|]. apply Forall_app. split.
    - eapply Forall_impl; [exact Hupd|]. intros m (l & -> & Hl).
      destruct l as [|x l]; simpl in *; lia.
    - by constructor. }
  assert (Hom : omap committed updates = []).
  { clear -Hupd. induction updates as [|m ms IH]; [done|].
    apply Forall_cons in Hupd as [(l & -> & _) Hms]. simpl. by apply IH. }
  simpl in Hs, Hc. rewrite omap_app, Hom in Hs, Hc. simpl in Hs, Hc.
  eexists. split; [|split; [|split; [exact Hs|split; [exact Hc|]]]];
    [reflexivity|reflexivity|].
  rewrite Hr. change (?a :: updates ++ ?b) with ([a] ++ updates ++ b).
  rewrite !update_points_app, Hpts.
  unfold update_points at 1 2. simpl. by rewrite app_nil_r.
Qed.

(** X21. The echo of a [stroke_end] reaches the session that drew the
    stroke like any other: that session, which already moved the stroke to
    its strokes in [endStroke], holds it twice after the echo (as it drew
    it, then as its JSON text has it), where every other session holds it
    once, as the stored room does. *)
Theorem own_stroke_is_echoed (StringToNumber : string -> JsNum)
    env r rid me user refs cur c other c2 :
  member env r rid me user ->
  currentStroke refs = Some cur ->
  (∃ flushed, (endStroke refs).2 = flushed ++ [stroke_end (stroke_id cur) cur]) ∧
  let r' :=
    (POST StringToNumber env
       (sendMessage rid me (now env) (stroke_end (stroke_id cur) cur)) r).2 in
  strokes (room_of env r' rid)
    = strokes (room_of env r rid) ++ [JSON_stroke cur] ∧
  c_strokes (deliver me (emitted r r') (endStroke_state cur c))
    = c_strokes c ++ [cur; JSON_stroke cur] ∧
  c_strokes (deliver other (emitted r r') c2)
    = c_strokes c2 ++ [JSON_stroke cur].
Proof.
  intros Hm Hcur. split.
  - unfold endStroke. rewrite Hcur.
    destruct (flushPointBatch refs) as [refs1 out]. simpl. by exists out.
  - unfold sendMessage, JSON_message, JSON_client. cbn [roomId userId payload timestamp].
    rewrite (POST_member _ _ _ _ _ _ _ _ Hm).
    rewrite switch_stroke_end by apply room_of_JSON. simpl.
    rewrite room_of_stored_now by eauto with json. rewrite emitted_app. simpl.
    rewrite JSON_stroke_idemp.
    split; [done|]. split; [|done]. by rewrite <- app_assoc.
Qed.

Lemma brush_points_are_sent_once_witness :
  let '(refs1, out1) :=
    startStroke "A" (Scenario.pt 0 0) red_brush "s1" 1500 unfinished in
  let '(refs2, out2) :=
    draw [Drawn (Scenario.pt 5 5); TimerFired; Drawn (Scenario.pt 9 4);
          Drawn (Scenario.pt 9 9)] refs1 in
  let '(refs3, out3) := endStroke refs2 in
  ∃ updates stroke,
    out2 ++ out3 = updates ++ [stroke_end "s1" stroke] ∧
    Forall (fun m => ∃ l, m = stroke_update "s1" (Some l) (last l) ∧
                          1 ≤ length l ≤ 2) updates ∧
    update_points "s1" updates
      = [Scenario.pt 2 2; Scenario.pt 5 5; Scenario.pt 9 4; Scenario.pt 9 9] ∧
    stroke_id stroke = "s1" ∧
    stroke_userId stroke = "A" ∧
    points stroke
      = [Scenario.pt 0 0; Scenario.pt 5 5; Scenario.pt 9 4; Scenario.pt 9 9] ∧
    currentStroke refs3 = None ∧
    pointBatch refs3 = [].
Proof.
  refine (brush_points_are_sent_once "A" (Scenario.pt 0 0) red_brush "s1" 1500
            [Drawn (Scenario.pt 5 5); TimerFired; Drawn (Scenario.pt 9 4);
             Drawn (Scenario.pt 9 9)] unfinished eq_refl _).
  split; [exact (le_n 1) | discriminate].
Defined.

Lemma shape_final_point_is_sent_witness :
  let '(refs1, out1) :=
    startStroke "A" (Scenario.pt 0 0) red_line "s1" 1500 unfinished in
  let '(refs2, out2) :=
    draw [TimerFired; Drawn (Scenario.pt 5 5); Drawn (Scenario.pt 9 4);
          TimerFired; Drawn (Scenario.pt 9 9)] refs1 in
  let '(refs3, out3) := endStroke refs2 in
  ∃ updates stroke,
    out2 ++ out3 = updates ++ [stroke_end "s1" stroke] ∧
    Forall (fun m => ∃ p, m = stroke_update "s1" (Some [p]) (Some p)) updates ∧
    update_points "s1" updates
      `sublist_of` [Scenario.pt 2 2; Scenario.pt 5 5; Scenario.pt 9 4;
                    Scenario.pt 9 9] ∧
    last (update_points "s1" updates) = Some (Scenario.pt 9 9) ∧
    points stroke = [Scenario.pt 0 0] ∧
    startPoint stroke = Some (Scenario.pt 0 0) ∧
    endPoint stroke = Some (Scenario.pt 9 9) ∧
    currentStroke refs3 = None ∧
    pointBatch refs3 = [].
Proof.
  refine (shape_final_point_is_sent "A" (Scenario.pt 0 0) red_line "s1" 1500
            [TimerFired; Drawn (Scenario.pt 5 5); Drawn (Scenario.pt 9 4);
             TimerFired; Drawn (Scenario.pt 9 9)] unfinished eq_refl _).
  split; [exact (le_n 1) | discriminate].
Defined.

Lemma update_batches_are_small_witness :
  let '(refs', out) :=
    hook_run "A"
      [StartStroke (Scenario.pt 0 0) red_brush "s1" 1500;
       During (Drawn (Scenario.pt 5 5)); During (Drawn (Scenario.pt 9 4));
       During (Drawn (Scenario.pt 9 9)); EndStroke] idle in
  batch_ok refs' ∧
  ∀ sid pts ep, stroke_update sid pts ep ∈ out ->
    ∃ l, pts = Some l ∧ 1 ≤ length l ≤ MIN_POINTS_TO_SEND ∧ ep = last l ∧
         take 20 l = l.
Proof.
  refine (update_batches_are_small "A"
            [StartStroke (Scenario.pt 0 0) red_brush "s1" 1500;
             During (Drawn (Scenario.pt 5 5)); During (Drawn (Scenario.pt 9 4));
             During (Drawn (Scenario.pt 9 9)); EndStroke] idle _).
  split; [simpl; lia | reflexivity].
Defined.

Lemma brush_stroke_reaches_the_room_witness :
  let '(refs1, out1) :=
    startStroke "A" (Scenario.pt 0 0) red_brush "s1" 1500 unfinished in
  let '(refs2, out2) :=
    draw [Drawn (Scenario.pt 5 5); Drawn (Scenario.pt 9 4)] refs1 in
  let '(refs3, out3) := endStroke refs2 in
  let r' :=
    post_all Scenario.no_strings (Scenario.env_at 2000 "op-1") "R1" "A"
      (out1 ++ out2 ++ out3) Scenario.fresh in
  ∃ stroke,
    stroke_id stroke = "s1" ∧
    points stroke = [Scenario.pt 0 0; Scenario.pt 5 5; Scenario.pt 9 4] ∧
    strokes (room_of (Scenario.env_at 2000 "op-1") r' "R1")
      = strokes (room_of (Scenario.env_at 2000 "op-1") Scenario.fresh "R1")
        ++ [stroke] ∧
    committed_strokes (emitted Scenario.fresh r') = [stroke] ∧
    relayed_points "s1" (emitted Scenario.fresh r')
      = [Scenario.pt 2 2; Scenario.pt 5 5; Scenario.pt 9 4].
Proof.
  refine (brush_stroke_reaches_the_room Scenario.no_strings
            (Scenario.env_at 2000 "op-1") Scenario.fresh "R1" "A" Scenario.A
            (Scenario.pt 0 0) red_brush "s1" 1500
            [Drawn (Scenario.pt 5 5); Drawn (Scenario.pt 9 4)] unfinished
            _ eq_refl _).
  - split; [discriminate | split; [discriminate | vm_compute; reflexivity]].
  - split; [exact (le_n 1) | discriminate].
Defined.

Lemma own_stroke_is_echoed_witness :
  c_strokes
    (deliver "A"
       (emitted Scenario.fresh
          (POST Scenario.no_strings (Scenario.env_at 2000 "op-1")
             (sendMessage "R1" "A" 2000 (stroke_end "s1" Scenario.s1))
             Scenario.fresh).2)
       (endStroke_state Scenario.s1 initial_state))
  = [Scenario.s1; Scenario.s1].
Proof.
  refine (proj1 (proj2 (proj2 (own_stroke_is_echoed Scenario.no_strings
            (Scenario.env_at 2000 "op-1") Scenario.fresh "R1" "A" Scenario.A
            (mkDrawingRefs (Some Scenario.s1) [] false) Scenario.s1
            initial_state "B" initial_state _ eq_refl)))).
  split; [discriminate | split; [discriminate | vm_compute; reflexivity]].
Defined.
